(** * The flake checker of [src/nix/flake.cc] ([CmdFlakeCheck::run])

    A shallow embedding of the output validation pass of [nix flake check]:
    the lambdas [checkSystemName], [checkDerivation], [checkApp],
    [checkOverlay], [checkModule], [checkHydraJobs],
    [checkNixOSConfiguration], the callback handed to [enumerateOutputs],
    and the final [buildPaths] submission.

    The C++ code works on lazily evaluated values, throws exceptions and
    appends to a captured vector.  Here a value is a finite tree whose nodes
    carry an address, effects are threaded through an explicit state
    (the log of [forceValue] calls, the [drvPaths] vector, the warnings
    printed, the batches handed to [buildPaths]) and an exception is a
    result of its own that keeps the state reached when it was thrown. *)

From Stdlib Require Import String Ascii List Bool Arith Lia ZArith.
Import ListNotations.
Open Scope string_scope.

(** ** Strings *)

(** [std::string::find(char)]: the index of the first occurrence,
    [None] standing for [std::string::npos]. *)
Fixpoint string_find (s : string) (c : ascii) : option nat :=
  match s with
  | EmptyString => None
  | String a s' =>
      if Ascii.eqb a c then Some 0 else option_map S (string_find s' c)
  end.

Definition is_npos (r : option nat) : bool :=
  match r with None => true | Some _ => false end.

Definition string_empty (s : string) : bool :=
  match s with EmptyString => true | _ => false end.

(** The line feed that ends a prefix. *)
Definition nl : string := String (ascii_of_nat 10) EmptyString.

(** ** Errors *)

(** Modelled from the spec: the class [Error] is declared outside this
    file.  An error carries its message and the context frames that were
    added on its way out, the outermost first. *)
Record Error : Type := mkError { prefix_ : string; err : string }.

Definition Error_ (msg : string) : Error := mkError "" msg.

(** [e.addPrefix(p)]: [prefix_ = p + prefix_]. *)
Definition addPrefix (p : string) (e : Error) : Error :=
  mkError (p ++ prefix_ e) (err e).

Definition what (e : Error) : string := prefix_ e ++ err e.

(** The outcome of a call: it returns, it throws an [Error], or an
    [assert] fails and the process aborts. *)
Inductive Result (A : Type) : Type :=
| Ok (a : A)
| Throw (e : Error)
| Abort.

Arguments Ok {A} a.
Arguments Throw {A} e.
Arguments Abort {A}.

(** ** Values of the evaluator *)

Definition Symbol := string.

(** A source position, kept as the text that [%s] prints for it. *)
Definition Pos := string.

Definition noPos : Pos := "".

(** The address of a [Value] cell: what [Value &] identifies. *)
Definition Addr := nat.

(** An opaque store path, kept in its printed form. *)
Definition StorePath := string.

Record StorePathWithOutputs : Type := mkStorePathWithOutputs
  { path : StorePath; outputs : list string }.

Record Formals : Type := mkFormals { ellipsis : bool }.

(** [ExprLambda] among the expressions.  [formals] is the pointer that is
    non-null exactly when the lambda matches an attribute set, so
    [matchAttrs] is read off it. *)
Inductive Expr : Type :=
| ELambda (l : ExprLambda)
| EOther (tag : nat)
with ExprLambda : Type :=
| mkExprLambda (arg : Symbol) (formals : option Formals) (body : Expr).

Definition arg (l : ExprLambda) : Symbol :=
  match l with mkExprLambda a _ _ => a end.

Definition formals (l : ExprLambda) : option Formals :=
  match l with mkExprLambda _ f _ => f end.

Definition body (l : ExprLambda) : Expr :=
  match l with mkExprLambda _ _ b => b end.

Definition matchAttrs (l : ExprLambda) : bool :=
  match formals l with Some _ => true | None => false end.

(** [dynamic_cast<ExprLambda *>(e)] *)
Definition dynamic_cast_ExprLambda (e : Expr) : option ExprLambda :=
  match e with ELambda l => Some l | EOther _ => None end.

Record DrvInfo : Type := mkDrvInfo { queryDrvPath : string }.

(** An app; [context] is a set of strings in the code and is kept here
    as the list of its elements in iteration order. *)
Record App : Type := mkApp { context : list string; program : string }.

(** Modelled from the spec: the evaluator's shape introspection
    ([isBuildTarget], the "app" shape carrying a context of referenced build
    outputs) is outside this file.  A forced mapping carries the evaluator's
    verdict: a plain attribute set, a build target with its derivation
    path, or an app with its context. *)
Inductive AttrsKind : Type :=
| kPlain
| kDerivation (drv : DrvInfo)
| kApp (app : App).

Record Attr (V : Type) : Type := mkAttr
  { attr_name : Symbol; attr_value : V; attr_pos : Pos }.

Arguments mkAttr {V} attr_name attr_value attr_pos.
Arguments attr_name {V} a.
Arguments attr_value {V} a.
Arguments attr_pos {V} a.

(** Modelled from the spec: a Lazy Output Node.  Forcing it either fails
    with an evaluation error ([vThunkThrows]) or yields a concrete shape: a
    scalar, an ordered attribute mapping, or a callable. *)
#[warnings="-register-all"]
Inductive Value : Type :=
| vThunkThrows (addr : Addr) (msg : string)
| vInt (addr : Addr) (n : Z)
| vString (addr : Addr) (s : string) (ctx : list string)
| vLambda (addr : Addr) (fun_ : ExprLambda)
| vAttrs (addr : Addr) (kind : AttrsKind) (attrs : list (Attr Value)).

Definition Bindings := list (Attr Value).

Definition addrOf (v : Value) : Addr :=
  match v with
  | vThunkThrows a _ | vInt a _ | vString a _ _ | vLambda a _
  | vAttrs a _ _ => a
  end.

(** [v.attrs], read after [forceAttrs] has succeeded. *)
Definition attrsOf (v : Value) : Bindings :=
  match v with vAttrs _ _ bs => bs | _ => [] end.

(** [Bindings::get]: the attribute of that name, if any. *)
Definition Bindings_get (n : Symbol) (bs : Bindings) : option (Attr Value) :=
  find (fun a => String.eqb (attr_name a) n) bs.

(** Modelled from the spec: [showType] is outside this file; only the
    wording of error messages depends on it. *)
Definition showType (v : Value) : string :=
  match v with
  | vThunkThrows _ _ => "a thunk"
  | vInt _ _ => "an integer"
  | vString _ _ _ => "a string"
  | vLambda _ _ => "a function"
  | vAttrs _ _ _ => "a set"
  end.

(** ** The state threaded through a run *)

Record State : Type := mkState
  { forced : list Addr;                      (* calls of forceValue, in order *)
    drvPaths : list StorePathWithOutputs;    (* the vector captured by the lambdas *)
    warnings : list string;                  (* lines printed by warn *)
    builds : list (list StorePathWithOutputs) (* batches given to buildPaths *) }.

Definition M (A : Type) : Type := State -> Result A * State.

Definition ret {A} (a : A) : M A := fun s => (Ok a, s).

Definition bind {A B} (m : M A) (f : A -> M B) : M B :=
  fun s =>
    match m s with
    | (Ok a, s') => f a s'
    | (Throw e, s') => (Throw e, s')
    | (Abort, s') => (Abort, s')
    end.

Definition throw {A} (e : Error) : M A := fun s => (Throw e, s).

Definition abort {A} : M A := fun s => (Abort, s).

(** [try { m } catch (Error & e) { h e }] *)
Definition tryCatch {A} (m : M A) (h : Error -> M A) : M A :=
  fun s =>
    match m s with
    | (Throw e, s') => h e s'
    | r => r
    end.

Definition lift {A} (r : Result A) : M A := fun s => (r, s).

Declare Scope monad_scope.
Delimit Scope monad_scope with monad.
Notation "x <- m ;; k" := (bind m (fun x => k))
  (at level 61, m at next level, right associativity) : monad_scope.
Notation "m ;; k" := (bind m (fun _ => k))
  (at level 61, right associativity) : monad_scope.
Notation "'TRY' m 'CATCH' e '=>' h" := (tryCatch m (fun e => h))
  (at level 10, e name, m at level 200, h at level 200) : monad_scope.
Open Scope monad_scope.

(** [for (auto & x : xs) f(x);] *)
Definition forEach {A} (f : A -> M unit) : list A -> M unit :=
  fix go (xs : list A) : M unit :=
    match xs with
    | [] => ret tt
    | x :: xs' => f x ;; go xs'
    end.

Definition logForce (a : Addr) : M unit :=
  fun s => (Ok tt, mkState (forced s ++ [a]) (drvPaths s) (warnings s) (builds s)).

(** [drvPaths.emplace_back(drvPath)] *)
Definition drvPaths_emplace_back (p : StorePath) : M unit :=
  fun s => (Ok tt, mkState (forced s)
                     (drvPaths s ++ [mkStorePathWithOutputs p []])
                     (warnings s) (builds s)).

(** [std::vector<StorePathWithOutputs> drvPaths;] *)
Definition drvPaths_declare : M unit :=
  fun s => (Ok tt, mkState (forced s) [] (warnings s) (builds s)).

Definition drvPaths_read : M (list StorePathWithOutputs) :=
  fun s => (Ok (drvPaths s), s).

(** [warn(msg)] *)
Definition warn (msg : string) : M unit :=
  fun s => (Ok tt, mkState (forced s) (drvPaths s) (warnings s ++ [msg]) (builds s)).

(** ** Collaborators declared outside this file *)

Class Externals : Type := mkExternals
  { (* settings.thisSystem.get() *)
    thisSystem : string;
    (* store->parseStorePath: throws on a string that is no store path *)
    parseStorePath : string -> Result StorePath;
    (* StorePath::isDerivation *)
    StorePath_isDerivation : StorePath -> bool;
    (* decodeContext: a context element as (path, output name) *)
    decodeContext : string -> string * string;
    (* what store->buildPaths answers for a batch *)
    buildPaths_result : list StorePathWithOutputs -> Result unit;
    (* the macros of util.hh *)
    ANSI_BOLD : string;
    ANSI_NORMAL : string }.

Section Checker.

Context {ext : Externals}.

(** ** The evaluator and the store, as far as this file calls them *)

(** Modelled from the spec: [force(node) -> ConcreteShape | EvaluationError].
    [state->forceValue(v, pos)] is logged with the address of [v]; a thunk
    whose evaluation fails throws its evaluation error. *)
Definition forceValue (v : Value) (pos : Pos) : M unit :=
  logForce (addrOf v) ;;
  match v with
  | vThunkThrows _ msg => throw (Error_ msg)
  | _ => ret tt
  end.

(** Modelled from the spec: [state->forceAttrs(v, pos)] forces [v] and
    throws unless the shape obtained is a mapping. *)
Definition forceAttrs (v : Value) (pos : Pos) : M unit :=
  forceValue v pos ;;
  match v with
  | vAttrs _ _ _ => ret tt
  | _ => throw (Error_ ("value is " ++ showType v ++ " while a set was expected"
                        ++ (if string_empty pos then "" else ", at " ++ pos)))
  end.

(** Modelled from the spec: [state->isDerivation(v)], the evaluator's
    notion of "is this a build target". *)
Definition isDerivation (v : Value) : bool :=
  match v with
  | vAttrs _ (kDerivation _) _ => true
  | _ => false
  end.

(** Modelled from the spec: [getDerivation(state, v, false)] forces [v]
    and answers its build-target description when it is a build target. *)
Definition getDerivation (v : Value) (ignoreAssertionFailures : bool)
  : M (option DrvInfo) :=
  forceValue v noPos ;;
  ret (match v with
       | vAttrs _ (kDerivation drv) _ => Some drv
       | _ => None
       end).

(** Modelled from the spec: the constructor [App(state, v)] forces [v] and
    extracts the app it describes; any shape mismatch fails with a
    descriptive error. *)
Definition App_ (vApp : Value) : M App :=
  forceAttrs vApp noPos ;;
  match vApp with
  | vAttrs _ (kApp app) _ => ret app
  | _ => throw (Error_ "value does not have type 'app'")
  end.

(** Modelled from the spec: [parseAttrPath] is outside this file; a dotted
    attribute path is split into its names. *)
Fixpoint parseAttrPath_aux (cur : string) (s : string) : list string :=
  match s with
  | EmptyString => [cur]
  | String c s' =>
      if Ascii.eqb c "."%char then cur :: parseAttrPath_aux "" s'
      else parseAttrPath_aux (cur ++ String c "") s'
  end.

Definition parseAttrPath (s : string) : list string := parseAttrPath_aux "" s.

(** Modelled from the spec: [findAlongAttrPath(state, attrPath, autoArgs, vIn)]
    descends along the names of [attrPath]: each value on the way is forced
    and must be a mapping that has the next name; the value reached is
    returned unforced. *)
Fixpoint findAlongAttrPath_tokens (attrPath : string) (tokens : list string)
    (v : Value) : M Value :=
  match tokens with
  | [] => ret v
  | attr :: tokens' =>
      forceValue v noPos ;;
      match v with
      | vAttrs _ _ bs =>
          match Bindings_get attr bs with
          | None => throw (Error_ ("attribute '" ++ attr ++ "' in selection path '"
                                   ++ attrPath ++ "' not found"))
          | Some a => findAlongAttrPath_tokens attrPath tokens' (attr_value a)
          end
      | _ => throw (Error_ ("the expression selected by the selection path '"
                            ++ attrPath ++ "' should be a set but is "
                            ++ showType v))
      end
  end.

Definition findAlongAttrPath (attrPath : string) (vIn : Value) : M Value :=
  findAlongAttrPath_tokens attrPath (parseAttrPath attrPath) vIn.

(** Modelled from the spec: [store->buildPaths(drvPaths)] is the external
    Build Trigger.  The batch is recorded and the answer of the build
    backend is returned (or thrown). *)
Definition store_buildPaths (ps : list StorePathWithOutputs) : M unit :=
  fun s => (buildPaths_result ps,
            mkState (forced s) (drvPaths s) (warnings s) (builds s ++ [ps])).

(** ** The lambdas of [CmdFlakeCheck::run] *)

Definition checkSystemName (system : string) (pos : Pos) : M unit :=
  if is_npos (string_find system "-"%char) then
    throw (Error_ ("'" ++ system ++ "' is not a valid system type, at " ++ pos))
  else ret tt.

Definition checkDerivation (attrPath : string) (v : Value) (pos : Pos)
  : M StorePath :=
  TRY
    (drvInfo <- getDerivation v false ;;
     match drvInfo with
     | None =>
         throw (Error_ ("flake attribute '" ++ attrPath ++ "' is not a derivation"))
     | Some drvInfo => lift (parseStorePath (queryDrvPath drvInfo))
     end)
  CATCH e =>
    throw (addPrefix ("while checking the derivation '" ++ ANSI_BOLD ++ attrPath
                      ++ ANSI_NORMAL ++ "' at " ++ pos ++ ":" ++ nl) e).

Definition checkApp (attrPath : string) (v : Value) (pos : Pos) : M unit :=
  TRY
    (app <- App_ v ;;
     forEach (fun i =>
       let '(drvPathS, outputName) := decodeContext i in
       drvPath <- lift (parseStorePath drvPathS) ;;
       if negb (string_empty outputName) && StorePath_isDerivation drvPath
       then drvPaths_emplace_back drvPath
       else ret tt) (context app))
  CATCH e =>
    throw (addPrefix ("while checking the app definition '" ++ ANSI_BOLD ++ attrPath
                      ++ ANSI_NORMAL ++ "' at " ++ pos ++ ":" ++ nl) e).

Definition checkOverlay (attrPath : string) (v : Value) (pos : Pos) : M unit :=
  TRY
    (forceValue v pos ;;
     match v with
     | vLambda _ fun_ =>
         if matchAttrs fun_ || negb (String.eqb (arg fun_) "final") then
           throw (Error_ "overlay does not take an argument named 'final'")
         else
           match dynamic_cast_ExprLambda (body fun_) with
           | None => throw (Error_ "overlay does not take an argument named 'prev'")
           | Some body_ =>
               if matchAttrs body_ || negb (String.eqb (arg body_) "prev") then
                 throw (Error_ "overlay does not take an argument named 'prev'")
               else ret tt
           end
     | _ => throw (Error_ "overlay does not take an argument named 'final'")
     end)
  CATCH e =>
    throw (addPrefix ("while checking the overlay '" ++ ANSI_BOLD ++ attrPath
                      ++ ANSI_NORMAL ++ "' at " ++ pos ++ ":" ++ nl) e).

Definition checkModule (attrPath : string) (v : Value) (pos : Pos) : M unit :=
  TRY
    (forceValue v pos ;;
     match v with
     | vLambda _ fun_ =>
         match formals fun_ with
         | None => throw (Error_ "module must match an open attribute set ('{ config, ... }')")
         | Some fs =>
             if negb (ellipsis fs) then
               throw (Error_ "module must match an open attribute set ('{ config, ... }')")
             else ret tt
         end
     | vAttrs _ _ attrs =>
         forEach (fun attr =>
           TRY forceValue (attr_value attr) (attr_pos attr)
           CATCH e =>
             throw (addPrefix ("while evaluating the option '" ++ ANSI_BOLD
                               ++ attr_name attr ++ ANSI_NORMAL ++ "' at "
                               ++ attr_pos attr ++ ":" ++ nl) e)) attrs
     | _ => throw (Error_ "module must be a function or an attribute set")
     end)
  CATCH e =>
    throw (addPrefix ("while checking the NixOS module '" ++ ANSI_BOLD ++ attrPath
                      ++ ANSI_NORMAL ++ "' at " ++ pos ++ ":" ++ nl) e).

Fixpoint checkHydraJobs (attrPath : string) (v : Value) (pos : Pos) {struct v}
  : M unit :=
  TRY
    (forceAttrs v pos ;;
     if isDerivation v then
       throw (Error_ "jobset should not be a derivation at top-level")
     else
       match v with
       | vAttrs _ _ attrs =>
           forEach (fun attr =>
             forceAttrs (attr_value attr) (attr_pos attr) ;;
             if negb (isDerivation (attr_value attr)) then
               checkHydraJobs (attrPath ++ "." ++ attr_name attr)
                 (attr_value attr) (attr_pos attr)
             else ret tt) attrs
       | _ => ret tt
       end)
  CATCH e =>
    throw (addPrefix ("while checking the Hydra jobset '" ++ ANSI_BOLD ++ attrPath
                      ++ ANSI_NORMAL ++ "' at " ++ pos ++ ":" ++ nl) e).

Definition checkNixOSConfiguration (attrPath : string) (v : Value) (pos : Pos)
  : M unit :=
  TRY
    (vToplevel <- findAlongAttrPath "config.system.build.toplevel" v ;;
     forceAttrs vToplevel pos ;;
     if negb (isDerivation vToplevel) then
       throw (Error_ "attribute 'config.system.build.toplevel' is not a derivation")
     else ret tt)
  CATCH e =>
    throw (addPrefix ("while checking the NixOS configuration '" ++ ANSI_BOLD
                      ++ attrPath ++ ANSI_NORMAL ++ "' at " ++ pos ++ ":" ++ nl) e).

(** [enumerateOutputs(state, vFlake, callback)] *)
Definition enumerateOutputs (vFlake : Value)
    (callback : string -> Value -> Pos -> M unit) : M unit :=
  forceAttrs vFlake noPos ;;
  match Bindings_get "outputs" (attrsOf vFlake) with
  | None => abort                                   (* assert(aOutputs) *)
  | Some aOutputs =>
      forceAttrs (attr_value aOutputs) noPos ;;
      forEach (fun attr =>
        callback (attr_name attr) (attr_value attr) (attr_pos attr))
        (attrsOf (attr_value aOutputs))
  end.

(** The callback that [run] hands to [enumerateOutputs]: the dispatch on
    the name of a flake output. *)
Definition checkOutput (name : string) (vOutput : Value) (pos : Pos) : M unit :=
  TRY
    (forceValue vOutput pos ;;
     if name =? "checks" then
       forceAttrs vOutput pos ;;
       forEach (fun attr =>
         checkSystemName (attr_name attr) (attr_pos attr) ;;
         forceAttrs (attr_value attr) (attr_pos attr) ;;
         forEach (fun attr2 =>
           drvPath <- checkDerivation
                        (name ++ "." ++ attr_name attr ++ "." ++ attr_name attr2)
                        (attr_value attr2) (attr_pos attr2) ;;
           if attr_name attr =? thisSystem then drvPaths_emplace_back drvPath
           else ret tt)
           (attrsOf (attr_value attr)))
         (attrsOf vOutput)
     else if name =? "packages" then
       forceAttrs vOutput pos ;;
       forEach (fun attr =>
         checkSystemName (attr_name attr) (attr_pos attr) ;;
         forceAttrs (attr_value attr) (attr_pos attr) ;;
         forEach (fun attr2 =>
           _ <- checkDerivation
                  (name ++ "." ++ attr_name attr ++ "." ++ attr_name attr2)
                  (attr_value attr2) (attr_pos attr2) ;;
           ret tt)
           (attrsOf (attr_value attr)))
         (attrsOf vOutput)
     else if name =? "apps" then
       forceAttrs vOutput pos ;;
       forEach (fun attr =>
         checkSystemName (attr_name attr) (attr_pos attr) ;;
         forceAttrs (attr_value attr) (attr_pos attr) ;;
         forEach (fun attr2 =>
           checkApp
             (name ++ "." ++ attr_name attr ++ "." ++ attr_name attr2)
             (attr_value attr2) (attr_pos attr2))
           (attrsOf (attr_value attr)))
         (attrsOf vOutput)
     else if (name =? "defaultPackage") || (name =? "devShell") then
       forceAttrs vOutput pos ;;
       forEach (fun attr =>
         checkSystemName (attr_name attr) (attr_pos attr) ;;
         _ <- checkDerivation (name ++ "." ++ attr_name attr)
                (attr_value attr) (attr_pos attr) ;;
         ret tt)
         (attrsOf vOutput)
     else if name =? "defaultApp" then
       forceAttrs vOutput pos ;;
       forEach (fun attr =>
         checkSystemName (attr_name attr) (attr_pos attr) ;;
         checkApp (name ++ "." ++ attr_name attr)
           (attr_value attr) (attr_pos attr))
         (attrsOf vOutput)
     else if name =? "legacyPackages" then
       forceAttrs vOutput pos ;;
       forEach (fun attr =>
         checkSystemName (attr_name attr) (attr_pos attr))
         (attrsOf vOutput)
     else if name =? "overlay" then
       checkOverlay name vOutput pos
     else if name =? "overlays" then
       forceAttrs vOutput pos ;;
       forEach (fun attr =>
         checkOverlay (name ++ "." ++ attr_name attr)
           (attr_value attr) (attr_pos attr))
         (attrsOf vOutput)
     else if name =? "nixosModule" then
       checkModule name vOutput pos
     else if name =? "nixosModules" then
       forceAttrs vOutput pos ;;
       forEach (fun attr =>
         checkModule (name ++ "." ++ attr_name attr)
           (attr_value attr) (attr_pos attr))
         (attrsOf vOutput)
     else if name =? "nixosConfigurations" then
       forceAttrs vOutput pos ;;
       forEach (fun attr =>
         checkNixOSConfiguration (name ++ "." ++ attr_name attr)
           (attr_value attr) (attr_pos attr))
         (attrsOf vOutput)
     else if name =? "hydraJobs" then
       checkHydraJobs name vOutput pos
     else
       warn ("unknown flake output '" ++ name ++ "'"))
  CATCH e =>
    throw (addPrefix ("while checking flake output '" ++ ANSI_BOLD ++ name
                      ++ ANSI_NORMAL ++ "':" ++ nl) e).

(** The evaluation pass of [run]: every output of the flake is checked. *)
Definition evaluateFlake (vFlake : Value) : M unit :=
  enumerateOutputs vFlake checkOutput.

(** [CmdFlakeCheck::run], from the value [vFlake] that [callFlake] made;
    [build] is the flag that [--no-build] clears.  Setting
    [settings.readOnlyMode] and the [Activity] log lines have no part in what
    is checked and are left out. *)
Definition run (build : bool) (vFlake : Value) : M unit :=
  drvPaths_declare ;;
  evaluateFlake vFlake ;;
  ps <- drvPaths_read ;;
  if build && negb (match ps with [] => true | _ => false end)
  then store_buildPaths ps
  else ret tt.

End Checker.

(** ** The specification's vocabulary

    The definitions below follow the words of the specification, not the
    code: what a correctly shaped entry of each category is, and which build
    targets a successful check is said to collect. *)

Section Specification.

Context {ext : Externals}.

Definition isOk {A} (r : Result A) : bool :=
  match r with Ok _ => true | _ => false end.

(** A platform identifier has two components: it contains the separator. *)
Fixpoint containsSeparator (s : string) : bool :=
  match s with
  | EmptyString => false
  | String c s' => Ascii.eqb c "-"%char || containsSeparator s'
  end.

Definition evaluates (v : Value) : bool :=
  match v with vThunkThrows _ _ => false | _ => true end.

Definition wfDerivation (v : Value) : bool :=
  match v with
  | vAttrs _ (kDerivation drv) _ => isOk (parseStorePath (queryDrvPath drv))
  | _ => false
  end.

Definition wfApp (v : Value) : bool :=
  match v with
  | vAttrs _ (kApp app) _ =>
      forallb (fun i => isOk (parseStorePath (fst (decodeContext i)))) (context app)
  | _ => false
  end.

(** A mapping all of whose values are shaped as [P] says. *)
Definition mappingOf (P : Value -> bool) (v : Value) : bool :=
  match v with
  | vAttrs _ _ attrs => forallb (fun a => P (attr_value a)) attrs
  | _ => false
  end.

(** A mapping from platform identifiers to values shaped as [P] says. *)
Definition perPlatform (P : Value -> bool) (v : Value) : bool :=
  match v with
  | vAttrs _ _ attrs =>
      forallb (fun a => containsSeparator (attr_name a) && P (attr_value a)) attrs
  | _ => false
  end.

Definition plainParam (l : ExprLambda) (n : string) : bool :=
  negb (matchAttrs l) && (arg l =? n).

(** A two-argument function [final: prev: ...]. *)
Definition wfOverlay (v : Value) : bool :=
  match v with
  | vLambda _ f =>
      plainParam f "final" &&
      match body f with
      | ELambda g => plainParam g "prev"
      | EOther _ => false
      end
  | _ => false
  end.

(** A function with an open single-parameter pattern, or a plain mapping
    whose values all evaluate. *)
Definition wfModule (v : Value) : bool :=
  match v with
  | vLambda _ f =>
      match formals f with Some fs => ellipsis fs | None => false end
  | vAttrs _ _ attrs => forallb (fun a => evaluates (attr_value a)) attrs
  | _ => false
  end.

(** The value at a nested attribute path, when every step is a mapping
    that has the next name. *)
Fixpoint select (names : list string) (v : Value) : option Value :=
  match names with
  | [] => Some v
  | n :: names' =>
      match v with
      | vAttrs _ _ bs =>
          match Bindings_get n bs with
          | Some a => select names' (attr_value a)
          | None => None
          end
      | _ => None
      end
  end.

Definition toplevelPath : list string := ["config"; "system"; "build"; "toplevel"].

Definition wfNixOSConfiguration (v : Value) : bool :=
  match select toplevelPath v with
  | Some vToplevel => isDerivation vToplevel
  | None => false
  end.

(** A job set: a mapping that is no build target and whose entries are
    build targets or job sets. *)
Fixpoint wfJobset (v : Value) : bool :=
  match v with
  | vAttrs _ kPlain attrs | vAttrs _ (kApp _) attrs =>
      forallb (fun a => isDerivation (attr_value a) || wfJobset (attr_value a)) attrs
  | _ => false
  end.

Definition wfOutput (name : string) (v : Value) : bool :=
  if name =? "checks" then perPlatform (mappingOf wfDerivation) v
  else if name =? "packages" then perPlatform (mappingOf wfDerivation) v
  else if name =? "apps" then perPlatform (mappingOf wfApp) v
  else if name =? "defaultPackage" then perPlatform wfDerivation v
  else if name =? "devShell" then perPlatform wfDerivation v
  else if name =? "defaultApp" then perPlatform wfApp v
  else if name =? "legacyPackages" then perPlatform (fun _ => true) v
  else if name =? "overlay" then wfOverlay v
  else if name =? "overlays" then mappingOf wfOverlay v
  else if name =? "nixosModule" then wfModule v
  else if name =? "nixosModules" then mappingOf wfModule v
  else if name =? "nixosConfigurations" then mappingOf wfNixOSConfiguration v
  else if name =? "hydraJobs" then wfJobset v
  else false.

Definition wfManifest (outputs : Bindings) : bool :=
  forallb (fun o => wfOutput (attr_name o) (attr_value o)) outputs.

(** The build target of a [checks] entry. *)
Definition checkTarget (v : Value) : list StorePathWithOutputs :=
  match v with
  | vAttrs _ (kDerivation drv) _ =>
      match parseStorePath (queryDrvPath drv) with
      | Ok p => [mkStorePathWithOutputs p []]
      | _ => []
      end
  | _ => []
  end.

(** The targets that one element of an app's context refers to. *)
Definition contextTarget (i : string) : list StorePathWithOutputs :=
  match parseStorePath (fst (decodeContext i)) with
  | Ok p =>
      if negb (string_empty (snd (decodeContext i))) && StorePath_isDerivation p
      then [mkStorePathWithOutputs p []]
      else []
  | _ => []
  end.

Definition appTargets (v : Value) : list StorePathWithOutputs :=
  match v with
  | vAttrs _ (kApp app) _ => flat_map contextTarget (context app)
  | _ => []
  end.

(** The build targets of [checks] under the current platform. *)
Definition checksTargets (v : Value) : list StorePathWithOutputs :=
  flat_map (fun a =>
    if attr_name a =? thisSystem
    then flat_map (fun a2 => checkTarget (attr_value a2)) (attrsOf (attr_value a))
    else []) (attrsOf v).

Definition outputTargets (name : string) (v : Value) : list StorePathWithOutputs :=
  if name =? "checks" then checksTargets v
  else if name =? "apps" then
    flat_map (fun a =>
      flat_map (fun a2 => appTargets (attr_value a2)) (attrsOf (attr_value a)))
      (attrsOf v)
  else if name =? "defaultApp" then
    flat_map (fun a => appTargets (attr_value a)) (attrsOf v)
  else [].

Definition expectedTargets (outputs : Bindings) : list StorePathWithOutputs :=
  flat_map (fun o => outputTargets (attr_name o) (attr_value o)) outputs.

(** The closed set of recognized output names. *)
Definition recognized : list string :=
  ["checks"; "packages"; "apps"; "defaultPackage"; "devShell"; "defaultApp";
   "legacyPackages"; "overlay"; "overlays"; "nixosModule"; "nixosModules";
   "nixosConfigurations"; "hydraJobs"].

(** The categories whose entries are keyed by platform. *)
Definition platformKeyed : list string :=
  ["checks"; "packages"; "apps"; "defaultPackage"; "devShell"; "defaultApp";
   "legacyPackages"].

End Specification.

(** ** A concrete setting, for running the checker on examples *)

Definition hasPrefix (p s : string) : bool := String.prefix p s.

Definition hasSuffix (s suffix : string) : bool :=
  let n := String.length s in
  let m := String.length suffix in
  (m <=? n)%nat && (substring (n - m) m s =? suffix).

(** A context element is written [!out!path] or [path]. *)
Definition demo_decodeContext (s : string) : string * string :=
  match s with
  | String "!"%char rest =>
      match string_find rest "!"%char with
      | Some i => (substring (S i) (String.length rest - S i) rest, substring 0 i rest)
      | None => (rest, "")
      end
  | _ => (s, "")
  end.

Definition demo_parseStorePath (s : string) : Result StorePath :=
  if hasPrefix "/nix/store/" s then Ok s
  else Throw (Error_ ("path '" ++ s ++ "' is not in the Nix store")).

Definition esc : string := String (ascii_of_nat 27) EmptyString.

Definition demo : Externals :=
  {| thisSystem := "x86_64-linux";
     parseStorePath := demo_parseStorePath;
     StorePath_isDerivation := fun p => hasSuffix p ".drv";
     decodeContext := demo_decodeContext;
     buildPaths_result := fun _ => Ok tt;
     ANSI_BOLD := esc ++ "[1m";
     ANSI_NORMAL := esc ++ "[0m" |}.

Definition s0 : State := mkState [] [] [] [].

Definition drvA : Value :=
  vAttrs 10 (kDerivation (mkDrvInfo "/nix/store/aaa-unit.drv")) [].

Definition drvB : Value :=
  vAttrs 11 (kDerivation (mkDrvInfo "/nix/store/bbb-lint.drv")) [].

Definition flakeOf (outputs : Bindings) : Value :=
  vAttrs 0 kPlain [mkAttr "outputs" (vAttrs 1 kPlain outputs) "flake.nix:1:1"].

(** ** Vocabulary of the statements *)

Section Frames.

Context {ext : Externals}.

(** The state after [forceValue] was called on the cells [a], in order. *)
Definition afterForce (a : list Addr) (s : State) : State :=
  mkState (forced s ++ a) (drvPaths s) (warnings s) (builds s).

(** The state once [run] has declared its empty [drvPaths]. *)
Definition declared (s : State) : State :=
  mkState (forced s) [] (warnings s) (builds s).

Definition is_nil {A} (l : list A) : bool :=
  match l with [] => true | _ => false end.

Definition afterWarn (msg : string) (s : State) : State :=
  mkState (forced s) (drvPaths s) (warnings s ++ [msg]) (builds s).

Definition isThrow {A} (r : Result A) : bool :=
  match r with Throw _ => true | _ => false end.

(** The context frame that the dispatcher adds for the output [name]. *)
Definition outputFrame (name : string) : string :=
  "while checking flake output '" ++ ANSI_BOLD ++ name ++ ANSI_NORMAL ++ "':" ++ nl.

Definition invalidSystem (system : string) (pos : Pos) : string :=
  "'" ++ system ++ "' is not a valid system type, at " ++ pos.

(** An attribute with its value replaced. *)
Definition withValue (f : Attr Value -> Value) (a : Attr Value) : Attr Value :=
  mkAttr (attr_name a) (f a) (attr_pos a).

(** The dispatcher applied to one entry of the outputs: the body of the
    loop of [enumerateOutputs]. *)
Definition dispatch (attr : Attr Value) : M unit :=
  checkOutput (attr_name attr) (attr_value attr) (attr_pos attr).

Definition unknownOutput (name : string) : string :=
  "unknown flake output '" ++ name ++ "'".

(** What a call may do to the state: it submits nothing to the build
    trigger, it only appends to [drvPaths], and what it appends is drawn
    from [L]; it only appends to the log of forced cells; a value it returns
    satisfies [Q].  This holds of the state reached whether the call returns
    or throws. *)
Definition adds {A} (m : M A) (L : list StorePathWithOutputs) (Q : A -> Prop) : Prop :=
  forall s,
    builds (snd (m s)) = builds s /\
    (exists l, drvPaths (snd (m s)) = (drvPaths s ++ l)%list /\ incl l L) /\
    (exists fl, forced (snd (m s)) = (forced s ++ fl)%list) /\
    (forall a, fst (m s) = Ok a -> Q a).

(** A call that returns [a], having appended exactly [l] to [drvPaths]
    and left the build trigger alone. *)
Definition yields {A} (m : M A) (a : A) (l : list StorePathWithOutputs) : Prop :=
  forall s, exists s',
    m s = (Ok a, s') /\ drvPaths s' = (drvPaths s ++ l)%list.

Definition anyResult {A} (a : A) : Prop := True.

(** The outputs that [enumerateOutputs] walks over. *)
Definition outputsOf (vFlake : Value) : Bindings :=
  match Bindings_get "outputs" (attrsOf vFlake) with
  | Some aOutputs => attrsOf (attr_value aOutputs)
  | None => []
  end.

Definition hydraFrame (attrPath : string) (pos : Pos) : string :=
  "while checking the Hydra jobset '" ++ ANSI_BOLD ++ attrPath ++ ANSI_NORMAL
  ++ "' at " ++ pos ++ ":" ++ nl.

Definition nixosFrame (attrPath : string) (pos : Pos) : string :=
  "while checking the NixOS configuration '" ++ ANSI_BOLD ++ attrPath
  ++ ANSI_NORMAL ++ "' at " ++ pos ++ ":" ++ nl.

(** What [checkHydraJobs] does with one entry of a job set. *)
Definition hydraEntry (attrPath : string) (attr : Attr Value) : M unit :=
  forceAttrs (attr_value attr) (attr_pos attr) ;;
  if negb (isDerivation (attr_value attr)) then
    checkHydraJobs (attrPath ++ "." ++ attr_name attr)
      (attr_value attr) (attr_pos attr)
  else ret tt.

(** A job set [depth] mappings deep around one build target. *)
Fixpoint deepJobset (depth : nat) (leaf : DrvInfo) : Value :=
  match depth with
  | O => vAttrs 0 kPlain [mkAttr "job" (vAttrs 1 (kDerivation leaf) []) noPos]
  | S d => vAttrs 0 kPlain [mkAttr "nested" (deepJobset d leaf) noPos]
  end.

(** The cells met on the way down a path of names, the last one left out. *)
Fixpoint visited (names : list string) (v : Value) : list Addr :=
  match names with
  | [] => []
  | n :: names' =>
      addrOf v ::
      match v with
      | vAttrs _ _ bs =>
          match Bindings_get n bs with
          | Some a => visited names' (attr_value a)
          | None => []
          end
      | _ => []
      end
  end.

(** The cells met on the way down, and the one at the end when the path
    leads somewhere. *)
Definition visitedWithEnd (names : list string) (v : Value) : list Addr :=
  (visited names v ++
   match select names v with Some t => [addrOf t] | None => [] end)%list.

End Frames.

(** ** Example manifests *)

Definition pathA : StorePathWithOutputs :=
  mkStorePathWithOutputs "/nix/store/aaa-unit.drv" [].

Definition pathHello : StorePathWithOutputs :=
  mkStorePathWithOutputs "/nix/store/ccc-hello.drv" [].

Definition appHello : Value :=
  vAttrs 20
    (kApp (mkApp ["!out!/nix/store/ccc-hello.drv"] "/nix/store/ddd-hello/bin/hello"))
    [].

Definition overlayFinalPrev : Value :=
  vLambda 30 (mkExprLambda "final" None (ELambda (mkExprLambda "prev" None (EOther 0)))).

Definition nixosMachine : Value :=
  vAttrs 40 kPlain
    [mkAttr "config"
       (vAttrs 41 kPlain
          [mkAttr "system"
             (vAttrs 42 kPlain
                [mkAttr "build"
                   (vAttrs 43 kPlain [mkAttr "toplevel" drvB "nixos.nix:4:1"])
                   "nixos.nix:3:1"])
             "nixos.nix:2:1"])
       "nixos.nix:1:1"].

(** A manifest with one entry per kind of category; the value under
    [legacyPackages] is a thunk that would fail. *)
Definition goodOutputs : Bindings :=
  [ mkAttr "checks"
      (vAttrs 2 kPlain
         [ mkAttr "aarch64-linux"
             (vAttrs 3 kPlain [mkAttr "lint" drvB "flake.nix:4:7"]) "flake.nix:3:5";
           mkAttr "x86_64-linux"
             (vAttrs 4 kPlain [mkAttr "unit" drvA "flake.nix:6:7"]) "flake.nix:5:5" ])
      "flake.nix:2:3";
    mkAttr "apps"
      (vAttrs 5 kPlain
         [ mkAttr "aarch64-darwin"
             (vAttrs 6 kPlain [mkAttr "hello" appHello "flake.nix:9:7"])
             "flake.nix:8:5" ])
      "flake.nix:7:3";
    mkAttr "overlay" overlayFinalPrev "flake.nix:10:3";
    mkAttr "legacyPackages"
      (vAttrs 7 kPlain
         [mkAttr "x86_64-linux" (vThunkThrows 8 "infinite recursion") "flake.nix:12:5"])
      "flake.nix:11:3";
    mkAttr "nixosConfigurations"
      (vAttrs 9 kPlain [mkAttr "machine" nixosMachine "flake.nix:14:5"])
      "flake.nix:13:3";
    mkAttr "hydraJobs" (deepJobset 2 (mkDrvInfo "/nix/store/bbb-lint.drv"))
      "flake.nix:15:3" ].

(** Two checks that name the same derivation, and an app of a platform
    that is not the current one. *)
Definition duplicateOutputs : Bindings :=
  [ mkAttr "checks"
      (vAttrs 2 kPlain
         [ mkAttr "x86_64-linux"
             (vAttrs 3 kPlain
                [ mkAttr "lint" drvA "flake.nix:4:7";
                  mkAttr "unit"
                    (vAttrs 12 (kDerivation (mkDrvInfo "/nix/store/aaa-unit.drv")) [])
                    "flake.nix:5:7" ])
             "flake.nix:3:5" ])
      "flake.nix:2:3";
    mkAttr "apps"
      (vAttrs 5 kPlain
         [ mkAttr "aarch64-darwin"
             (vAttrs 6 kPlain [mkAttr "hello" appHello "flake.nix:8:7"])
             "flake.nix:7:5" ])
      "flake.nix:6:3" ].

(** A well-formed [packages] output, then an output of an unknown name
    whose value fails to evaluate. *)
Definition packagesOnly : Bindings :=
  [ mkAttr "packages"
      (vAttrs 2 kPlain
         [ mkAttr "x86_64-linux"
             (vAttrs 3 kPlain [mkAttr "unit" drvA "flake.nix:4:7"]) "flake.nix:3:5" ])
      "flake.nix:2:3" ].

(** ** Further vocabulary: frames, forced cells, counts *)

Section MoreFrames.

Context {ext : Externals}.

Definition derivationFrame (attrPath : string) (pos : Pos) : string :=
  "while checking the derivation '" ++ ANSI_BOLD ++ attrPath ++ ANSI_NORMAL
  ++ "' at " ++ pos ++ ":" ++ nl.

Definition moduleFrame (attrPath : string) (pos : Pos) : string :=
  "while checking the NixOS module '" ++ ANSI_BOLD ++ attrPath ++ ANSI_NORMAL
  ++ "' at " ++ pos ++ ":" ++ nl.

Definition optionFrame (name : string) (pos : Pos) : string :=
  "while evaluating the option '" ++ ANSI_BOLD ++ name ++ ANSI_NORMAL
  ++ "' at " ++ pos ++ ":" ++ nl.

Definition overlayFrame (attrPath : string) (pos : Pos) : string :=
  "while checking the overlay '" ++ ANSI_BOLD ++ attrPath ++ ANSI_NORMAL
  ++ "' at " ++ pos ++ ":" ++ nl.

(** The parameter that the error of a rejected overlay names: [prev] when
    the value is a function whose first parameter is a plain [final],
    [final] otherwise. *)
Definition overlayComplaint (v : Value) : string :=
  match v with
  | vLambda _ f =>
      if plainParam f "final"
      then "overlay does not take an argument named 'prev'"
      else "overlay does not take an argument named 'final'"
  | _ => "overlay does not take an argument named 'final'"
  end.

Definition notADerivation (attrPath : string) : string :=
  "flake attribute '" ++ attrPath ++ "' is not a derivation".

(** The message with which forcing [v] fails, for a thunk that fails. *)
Definition thunkMessage (v : Value) : string :=
  match v with vThunkThrows _ msg => msg | _ => "" end.

(** The complaint about a value that is no derivation: its own evaluation
    error, or the message that names the attribute. *)
Definition derivationComplaint (attrPath : string) (v : Value) : string :=
  match v with
  | vThunkThrows _ msg => msg
  | _ => notADerivation attrPath
  end.

(** The first option of a module whose value fails to evaluate. *)
Definition firstFailing (attrs : Bindings) : option (Attr Value) :=
  find (fun a => negb (evaluates (attr_value a))) attrs.

(** The option values up to and including the first that fails. *)
Fixpoint forcedOptions (attrs : Bindings) : list Addr :=
  match attrs with
  | [] => []
  | a :: attrs' =>
      addrOf (attr_value a) ::
      (if evaluates (attr_value a) then forcedOptions attrs' else [])
  end.

(** The derivations at the leaves of a job set, and the job sets nested
    below its top. *)
Fixpoint countLeaves (v : Value) : nat :=
  match v with
  | vAttrs _ _ attrs =>
      list_sum (map (fun a => if isDerivation (attr_value a) then 1
                              else countLeaves (attr_value a)) attrs)
  | _ => 0
  end.

Fixpoint countNested (v : Value) : nat :=
  match v with
  | vAttrs _ _ attrs =>
      list_sum (map (fun a => if isDerivation (attr_value a) then 0
                              else S (countNested (attr_value a))) attrs)
  | _ => 0
  end.

(** A state with more cells forced, more paths collected and more warnings
    printed. *)
Definition extend (s : State) (fl : list Addr) (dl : list StorePathWithOutputs)
    (wl : list string) : State :=
  mkState (forced s ++ fl) (drvPaths s ++ dl) (warnings s ++ wl) (builds s).

(** A call whose outcome is [r] from every state, and whose only effect
    is to append [fl], [dl] and [wl] to the three logs. *)
Definition writes {A} (m : M A) (r : Result A) (fl : list Addr)
    (dl : list StorePathWithOutputs) (wl : list string) : Prop :=
  forall s, m s = (r, extend s fl dl wl).

Definition uniform {A} (m : M A) : Prop :=
  exists r fl dl wl, writes m r fl dl wl.

(** A call of that kind that prints no warning. *)
Definition quiet {A} (m : M A) : Prop :=
  exists r fl dl, writes m r fl dl [].

Definition recognizedb (name : string) : bool :=
  existsb (String.eqb name) recognized.

(** The warnings for the outputs of unknown name. *)
Definition unknownWarnings (outs : Bindings) : list string :=
  map unknownOutput
    (filter (fun n => negb (recognizedb n)) (map attr_name outs)).

End MoreFrames.

(** The names of the outputs from which a run collects paths to build. *)
Definition collecting : list string := ["checks"; "apps"; "defaultApp"].

Definition collects (name : string) : bool :=
  existsb (String.eqb name) collecting.

(** ** Further example values *)

Definition notAFunction : Value := vInt 50 3.

(** A function [final: <body>] whose body is no function. *)
Definition overlayFinalOnly : Value :=
  vLambda 51 (mkExprLambda "final" None (EOther 0)).

Definition overlaysOf (bad : Value) : Bindings :=
  [ mkAttr "good" overlayFinalPrev "flake.nix:3:5";
    mkAttr "worse" bad "flake.nix:4:5" ].

(** An output of unknown name in front of a [packages] output. *)
Definition withUnknown : Bindings :=
  mkAttr "formatter" (vInt 2 7) "flake.nix:2:3" :: packagesOnly.

(** A [packages] output, then an [overlay] that is no function, then an
    output that is never reached. *)
Definition badOverlay : Attr Value := mkAttr "overlay" notAFunction "flake.nix:5:3".

Definition neverReached : Attr Value :=
  mkAttr "hydraJobs" (vThunkThrows 60 "not evaluated") "flake.nix:6:3".

(** Packages, a NixOS configuration and Hydra jobs, but neither checks nor
    apps. *)
Definition nothingToBuild : Bindings :=
  (packagesOnly ++
   [ mkAttr "nixosConfigurations"
       (vAttrs 9 kPlain [mkAttr "machine" nixosMachine "flake.nix:6:5"])
       "flake.nix:5:3";
     mkAttr "hydraJobs" (deepJobset 1 (mkDrvInfo "/nix/store/bbb-lint.drv"))
       "flake.nix:7:3" ])%list.

(** * Properties *)

Section Theory.

Context {ext : Externals}.

(** ** Loops and frames *)

Lemma append_empty_r (s : string) : s ++ "" = s.
Proof. induction s as [|c s IH]; cbn; congruence. Qed.

#[local] Arguments String.append : simpl never.

Lemma addPrefix_Error_ (p msg : string) :
  addPrefix p (Error_ msg) = mkError p msg.
Proof. unfold addPrefix, Error_; cbn. now rewrite append_empty_r. Qed.

Lemma forEach_app {A} (f : A -> M unit) (l1 l2 : list A) (s : State) :
  forEach f (l1 ++ l2) s =
  match forEach f l1 s with
  | (Ok _, s1) => forEach f l2 s1
  | r => r
  end.
Proof.
  revert s. induction l1 as [|x l1 IH]; intros s; simpl.
  - reflexivity.
  - unfold bind. destruct (f x s) as [[[]|e|] s1]; auto.
Qed.

Lemma forEach_cons {A} (f : A -> M unit) (x : A) (l : list A) (s : State) :
  forEach f (x :: l) s =
  match f x s with
  | (Ok _, s1) => forEach f l s1
  | (Throw e, s1) => (Throw e, s1)
  | (Abort, s1) => (Abort, s1)
  end.
Proof. reflexivity. Qed.

Lemma forEach_rejects {A} (f : A -> M unit) (pre post : list A) (x : A) (e : Error) :
  (forall s, f x s = (Throw e, s)) ->
  forall s,
    forEach f (pre ++ x :: post) s =
    match forEach f pre s with
    | (Ok _, s1) => (Throw e, s1)
    | r => r
    end.
Proof.
  intros Hx s. rewrite forEach_app.
  destruct (forEach f pre s) as [[[]|e'|] s1]; auto.
  simpl. unfold bind. now rewrite Hx.
Qed.

Lemma string_find_dash (s : string) :
  is_npos (string_find s "-"%char) = negb (containsSeparator s).
Proof.
  induction s as [|c s IH]; simpl; auto.
  destruct (Ascii.eqb c "-"); simpl; auto.
  destruct (string_find s "-"); simpl in *; auto.
Qed.

Lemma checkSystemName_rejects (system : string) (pos : Pos) (s : State) :
  containsSeparator system = false ->
  checkSystemName system pos s = (Throw (Error_ (invalidSystem system pos)), s).
Proof.
  intros H. unfold checkSystemName. now rewrite string_find_dash, H.
Qed.

Lemma checkSystemName_accepts (system : string) (pos : Pos) (s : State) :
  containsSeparator system = true ->
  checkSystemName system pos s = (Ok tt, s).
Proof.
  intros H. unfold checkSystemName. now rewrite string_find_dash, H.
Qed.

(** ** The overlay validator *)

Lemma checkOverlay_state (attrPath : string) (v : Value) (pos : Pos) (s : State) :
  snd (checkOverlay attrPath v pos s) = afterForce [addrOf v] s.
Proof.
  unfold checkOverlay, tryCatch, bind, forceValue, logForce, throw, ret, afterForce.
  destruct v as [a m|a n|a x c|a f|a k bs]; simpl; try reflexivity.
  destruct (matchAttrs f || negb (arg f =? "final")); simpl; try reflexivity.
  destruct (dynamic_cast_ExprLambda (body f)); simpl; try reflexivity.
  destruct (matchAttrs e || negb (arg e =? "prev")); reflexivity.
Qed.

Lemma checkOverlay_outcome (attrPath : string) (v : Value) (pos : Pos) (s : State) :
  isOk (fst (checkOverlay attrPath v pos s)) = wfOverlay v /\
  isThrow (fst (checkOverlay attrPath v pos s)) = negb (wfOverlay v).
Proof.
  unfold checkOverlay, tryCatch, bind, forceValue, logForce, throw, ret,
    wfOverlay, plainParam.
  destruct v as [a m|a n|a x c|a f|a k bs]; simpl; try (split; reflexivity).
  destruct (matchAttrs f), (arg f =? "final"); simpl; try (split; reflexivity).
  destruct (body f) as [g|t]; simpl; try (split; reflexivity).
  destruct (matchAttrs g), (arg g =? "prev"); split; reflexivity.
Qed.

(** C5. [checkOverlay] returns exactly when the value is a function
    [final: prev: ...] with two plain (not pattern-matched) parameters of
    these names, and throws in every other case; whatever the value, its
    only effect is the one [forceValue] call on the value itself, and the
    outcome does not depend on the body under the two parameters. *)
Theorem checkOverlay_final_prev (attrPath : string) (v : Value) (pos : Pos) (s : State) :
  snd (checkOverlay attrPath v pos s) = afterForce [addrOf v] s /\
  isOk (fst (checkOverlay attrPath v pos s)) = wfOverlay v /\
  isThrow (fst (checkOverlay attrPath v pos s)) = negb (wfOverlay v) /\
  (forall a x fs y gs b b',
      checkOverlay attrPath
        (vLambda a (mkExprLambda x fs (ELambda (mkExprLambda y gs b)))) pos s =
      checkOverlay attrPath
        (vLambda a (mkExprLambda x fs (ELambda (mkExprLambda y gs b')))) pos s).
Proof.
  split; [apply checkOverlay_state|].
  split; [apply checkOverlay_outcome|].
  split; [apply checkOverlay_outcome|].
  intros a x fs y gs b b'. reflexivity.
Qed.

(** ** Platform-keyed categories *)

Ltac run_monad :=
  unfold tryCatch, bind, forceAttrs, forceValue, logForce, throw, ret, afterForce;
  simpl.

Lemma find_withValue (f : Attr Value -> Value) (attrs : Bindings) :
  find (fun attr => negb (containsSeparator (attr_name attr))) (map (withValue f) attrs) =
  option_map (withValue f)
    (find (fun attr => negb (containsSeparator (attr_name attr))) attrs).
Proof.
  induction attrs as [|x l IH]; simpl; auto.
  destruct (containsSeparator (attr_name x)); simpl; auto.
Qed.

Lemma forEach_checkSystemName (attrs : Bindings) (s : State) :
  forEach (fun attr => checkSystemName (attr_name attr) (attr_pos attr)) attrs s =
  (match find (fun attr => negb (containsSeparator (attr_name attr))) attrs with
   | None => Ok tt
   | Some bad => Throw (Error_ (invalidSystem (attr_name bad) (attr_pos bad)))
   end, s).
Proof.
  induction attrs as [|x l IH]; simpl; auto.
  unfold bind.
  destruct (containsSeparator (attr_name x)) eqn:E; simpl.
  - rewrite checkSystemName_accepts by assumption. apply IH.
  - now rewrite checkSystemName_rejects by assumption.
Qed.

(** C10. For [legacyPackages] the dispatcher forces the output itself
    (twice: [forceValue], then [forceAttrs]) and checks the platform names;
    the values under the platforms are never forced nor inspected, so that
    replacing them by anything (a failing thunk, a value of any shape)
    leaves outcome and state as they are. *)
Theorem legacyPackages_values_untouched (a : Addr) (k : AttrsKind) (attrs : Bindings)
    (pos : Pos) (s : State) :
  checkOutput "legacyPackages" (vAttrs a k attrs) pos s =
    (match find (fun attr => negb (containsSeparator (attr_name attr))) attrs with
     | None => Ok tt
     | Some bad =>
         Throw (mkError (outputFrame "legacyPackages")
                  (invalidSystem (attr_name bad) (attr_pos bad)))
     end, afterForce [a; a] s) /\
  (forall f : Attr Value -> Value,
      checkOutput "legacyPackages" (vAttrs a k (map (withValue f) attrs)) pos s =
      checkOutput "legacyPackages" (vAttrs a k attrs) pos s).
Proof.
  assert (E : forall l,
    checkOutput "legacyPackages" (vAttrs a k l) pos s =
    (match find (fun attr => negb (containsSeparator (attr_name attr))) l with
     | None => Ok tt
     | Some bad =>
         Throw (mkError (outputFrame "legacyPackages")
                  (invalidSystem (attr_name bad) (attr_pos bad)))
     end, afterForce [a; a] s)).
  { intros l. unfold checkOutput. run_monad.
    rewrite forEach_checkSystemName. rewrite <- app_assoc. simpl.
    destruct (find _ l); [rewrite addPrefix_Error_|]; reflexivity. }
  split; [apply E|].
  intros f. rewrite !E, find_withValue.
  destruct (find _ attrs); reflexivity.
Qed.

(** C6. In each platform-keyed category, an attribute whose name has no
    ['-'] is rejected by [checkSystemName] before anything under it is
    touched: the run ends in the state reached after the attributes before
    it (so no [forceValue] call was made for the rejected subtree, whatever
    it is), with the error naming the string and its position. *)
Theorem invalid_system_rejected_unforced (c : string) (a : Addr) (k : AttrsKind)
    (pre post : Bindings) (system : string) (v : Value) (p pos : Pos) (s : State) :
  In c platformKeyed ->
  containsSeparator system = false ->
  checkOutput c (vAttrs a k (pre ++ mkAttr system v p :: post)) pos s =
  match checkOutput c (vAttrs a k pre) pos s with
  | (Ok _, s1) =>
      (Throw (mkError (outputFrame c) (invalidSystem system p)), s1)
  | r => r
  end.
Proof.
  intros Hc Hsys.
  assert (Hrej : forall (rest : M unit) s1,
             (checkSystemName system p ;; rest) s1 =
             (Throw (Error_ (invalidSystem system p)), s1)).
  { intros rest s1. unfold bind. now rewrite checkSystemName_rejects. }
  simpl in Hc.
  repeat (destruct Hc as [<-|Hc]; [|]); try contradiction;
    unfold checkOutput; run_monad;
    (erewrite forEach_rejects;
     [|intros s1; simpl; first [apply Hrej | now apply checkSystemName_rejects]]);
    match goal with
    | |- context [forEach ?f pre ?st] =>
        destruct (forEach f pre st) as [[[]|e'|] s1]
    end; rewrite ?addPrefix_Error_; reflexivity.
Qed.

(** ** The dispatcher on unknown names and failing values *)

Lemma not_recognized (name n : string) :
  ~ In name recognized -> In n recognized -> (name =? n) = false.
Proof.
  intros Hname Hn. apply String.eqb_neq. intros ->. now apply Hname.
Qed.

(** C8. An output whose name is not one of the recognized categories
    makes the dispatcher print the warning that names it and return, and
    the loop over the outputs goes on with the entries after it; the one
    way such an output can end the pass is the evaluation error of its own
    value, thrown when the value is forced, before the name is looked at. *)
Theorem unknown_output_warns (name : string) (v : Value) (pos : Pos)
    (rest : Bindings) (s : State) :
  ~ In name recognized ->
  checkOutput name v pos s =
    match v with
    | vThunkThrows a msg =>
        (Throw (mkError (outputFrame name) msg), afterForce [a] s)
    | _ => (Ok tt, afterWarn (unknownOutput name) (afterForce [addrOf v] s))
    end /\
  forEach dispatch (mkAttr name v pos :: rest) s =
    match v with
    | vThunkThrows a msg =>
        (Throw (mkError (outputFrame name) msg), afterForce [a] s)
    | _ => forEach dispatch rest
             (afterWarn (unknownOutput name) (afterForce [addrOf v] s))
    end.
Proof.
  intros Hname.
  assert (E : checkOutput name v pos s =
              match v with
              | vThunkThrows a msg =>
                  (Throw (mkError (outputFrame name) msg), afterForce [a] s)
              | _ => (Ok tt, afterWarn (unknownOutput name) (afterForce [addrOf v] s))
              end).
  { unfold checkOutput.
    rewrite !(not_recognized name) by (assumption || (simpl; tauto)).
    destruct v; try reflexivity.
    run_monad. now rewrite addPrefix_Error_. }
  split; [exact E|].
  rewrite forEach_cons. unfold dispatch at 1.
  cbn [attr_name attr_value attr_pos]. rewrite E. now destruct v.
Qed.

Lemma checkOutput_failing_value (name : string) (a : Addr) (msg : string)
    (pos : Pos) (s : State) :
  checkOutput name (vThunkThrows a msg) pos s =
    (Throw (mkError (outputFrame name) msg), afterForce [a] s).
Proof.
  unfold checkOutput. run_monad. now rewrite addPrefix_Error_.
Qed.

(** ** Induction on values, through the attributes of a mapping *)

Lemma Value_nested_ind (P : Value -> Prop) :
  (forall a msg, P (vThunkThrows a msg)) ->
  (forall a n, P (vInt a n)) ->
  (forall a x c, P (vString a x c)) ->
  (forall a f, P (vLambda a f)) ->
  (forall a k attrs,
      (forall attr, In attr attrs -> P (attr_value attr)) -> P (vAttrs a k attrs)) ->
  forall v, P v.
Proof.
  intros Hthunk Hint Hstring Hlambda Hattrs.
  fix IH 1. intros [a msg|a n|a x c|a f|a k attrs].
  - apply Hthunk.
  - apply Hint.
  - apply Hstring.
  - apply Hlambda.
  - apply Hattrs. induction attrs as [|x l IHl]; intros attr Hattr.
    + destruct Hattr.
    + destruct Hattr as [<-|Hattr]; [apply IH|now apply IHl].
Qed.

(** ** What the validators do to the collector *)

Ltac unchanged :=
  simpl; repeat split; try discriminate;
  try (exists []; now rewrite app_nil_r); auto.

Lemma adds_ret {A} (a : A) (Q : A -> Prop) : Q a -> adds (ret a) [] Q.
Proof. intros Ha s. unchanged. now intros b [= <-]. Qed.

Lemma adds_throw {A} (e : Error) (Q : A -> Prop) : adds (throw e) [] Q.
Proof. intros s. unchanged. Qed.

Lemma adds_abort {A} (Q : A -> Prop) : adds abort [] Q.
Proof. intros s. unchanged. Qed.

Lemma adds_lift {A} (r : Result A) : adds (lift r) [] (fun a => r = Ok a).
Proof. intros s. unchanged. Qed.

Lemma adds_weaken {A} (m : M A) (L L' : list StorePathWithOutputs) (Q Q' : A -> Prop) :
  adds m L Q -> incl L L' -> (forall a, Q a -> Q' a) -> adds m L' Q'.
Proof.
  intros Hm HL HQ s. destruct (Hm s) as (Hb & (l & Hl & Hin) & Hf & Hq).
  repeat split; auto.
  exists l. split; auto. eapply incl_tran; eauto.
Qed.

Lemma adds_bind {A B} (m : M A) (f : A -> M B) (L1 L2 : list StorePathWithOutputs)
    (P : A -> Prop) (Q : B -> Prop) :
  adds m L1 P -> (forall a, P a -> adds (f a) L2 Q) -> adds (bind m f) (L1 ++ L2)%list Q.
Proof.
  intros Hm Hf s. unfold bind.
  destruct (Hm s) as (Hb & (l & Hl & Hin) & (fl & Hfl) & Hq).
  destruct (m s) as [[a|e|] s1]; simpl in *.
  - destruct (Hf a (Hq a eq_refl) s1) as (Hb2 & (l2 & Hl2 & Hin2) & (fl2 & Hfl2) & Hq2).
    repeat split.
    + congruence.
    + exists (l ++ l2)%list. rewrite Hl2, Hl, app_assoc. split; auto.
      apply incl_app; [apply incl_appl|apply incl_appr]; auto.
    + exists (fl ++ fl2)%list. now rewrite Hfl2, Hfl, app_assoc.
    + auto.
  - repeat split; auto; try discriminate.
    + exists l. split; auto. now apply incl_appl.
    + now exists fl.
  - repeat split; auto; try discriminate.
    + exists l. split; auto. now apply incl_appl.
    + now exists fl.
Qed.

Lemma adds_seq {A B} (m : M A) (k : M B) (L : list StorePathWithOutputs)
    (P : A -> Prop) (Q : B -> Prop) :
  adds m [] P -> adds k L Q -> adds (m ;; k) L Q.
Proof.
  intros Hm Hk. change L with ([] ++ L)%list. eapply adds_bind; eauto.
Qed.

Lemma adds_rethrow {A} (m : M A) (g : Error -> Error) (L : list StorePathWithOutputs)
    (Q : A -> Prop) :
  adds m L Q -> adds (TRY m CATCH e => throw (g e)) L Q.
Proof.
  intros Hm s. unfold tryCatch, throw.
  destruct (Hm s) as (Hb & Hl & Hf & Hq).
  destruct (m s) as [[a|e|] s1]; simpl in *; repeat split; auto; discriminate.
Qed.

Lemma adds_forEach {A} (f : A -> M unit) (g : A -> list StorePathWithOutputs)
    (xs : list A) :
  (forall x, In x xs -> adds (f x) (g x) anyResult) ->
  adds (forEach f xs) (flat_map g xs) anyResult.
Proof.
  induction xs as [|x xs IH]; intros Hf; simpl.
  - apply adds_ret. exact I.
  - eapply adds_bind.
    + apply Hf. now left.
    + intros _ _. apply IH. intros y Hy. apply Hf. now right.
Qed.

Lemma adds_forEach_nil {A} (f : A -> M unit) (xs : list A) :
  (forall x, In x xs -> adds (f x) [] anyResult) ->
  adds (forEach f xs) [] anyResult.
Proof.
  intros Hf. eapply adds_weaken.
  - apply (adds_forEach f (fun _ => [])). exact Hf.
  - intros p Hp. apply in_flat_map in Hp. now destruct Hp as (? & ? & []).
  - auto.
Qed.

Lemma adds_forceValue (v : Value) (pos : Pos) :
  adds (forceValue v pos) [] anyResult.
Proof.
  intros s. unfold forceValue, bind, logForce.
  destruct v; unchanged; now eexists.
Qed.

Lemma adds_forceAttrs (v : Value) (pos : Pos) :
  adds (forceAttrs v pos) [] (fun _ => exists a k bs, v = vAttrs a k bs).
Proof.
  intros s. unfold forceAttrs, forceValue, bind, logForce.
  destruct v; unchanged; try (now eexists).
  intros; eauto.
Qed.

Lemma adds_checkSystemName (system : string) (pos : Pos) :
  adds (checkSystemName system pos) [] anyResult.
Proof.
  unfold checkSystemName. destruct (is_npos _).
  - apply adds_throw.
  - now apply adds_ret.
Qed.

Lemma adds_emplace_back (p : StorePath) :
  adds (drvPaths_emplace_back p) [mkStorePathWithOutputs p []] anyResult.
Proof.
  intros s. unchanged.
  exists [mkStorePathWithOutputs p []]. split; auto. apply incl_refl.
Qed.

Lemma adds_warn (msg : string) : adds (warn msg) [] anyResult.
Proof. intros s. unchanged. Qed.

Lemma adds_any {A} (m : M A) (L : list StorePathWithOutputs) (Q : A -> Prop) :
  adds m L Q -> adds m L anyResult.
Proof.
  intros H. eapply adds_weaken; [exact H|apply incl_refl|]. now intros.
Qed.

Lemma adds_nil_any {A} (m : M A) (L : list StorePathWithOutputs) (Q : A -> Prop) :
  adds m [] Q -> adds m L anyResult.
Proof.
  intros H. eapply adds_weaken; [exact H|apply incl_nil_l|]. now intros.
Qed.

Lemma adds_getDerivation (v : Value) (b : bool) :
  adds (getDerivation v b) []
    (fun o => o = match v with vAttrs _ (kDerivation drv) _ => Some drv | _ => None end).
Proof.
  unfold getDerivation. eapply adds_seq.
  - apply adds_forceValue.
  - now apply adds_ret.
Qed.

Lemma adds_checkDerivation (attrPath : string) (v : Value) (pos : Pos) :
  adds (checkDerivation attrPath v pos) []
    (fun p => checkTarget v = [mkStorePathWithOutputs p []]).
Proof.
  unfold checkDerivation. apply adds_rethrow.
  change (@nil StorePathWithOutputs) with (@nil StorePathWithOutputs ++ [])%list.
  eapply adds_bind.
  - apply adds_getDerivation.
  - intros o ->. destruct v as [| | | |a [|drv|app] bs]; try apply adds_throw.
    eapply adds_weaken.
    + apply adds_lift.
    + apply incl_refl.
    + intros p Hp. simpl. now rewrite Hp.
Qed.

Lemma adds_App_ (v : Value) :
  adds (App_ v) [] (fun app => exists a bs, v = vAttrs a (kApp app) bs).
Proof.
  unfold App_. eapply adds_seq.
  - apply adds_forceAttrs.
  - destruct v as [| | | |a [|drv|app] bs]; try apply adds_throw.
    apply adds_ret. eauto.
Qed.

Lemma adds_checkApp (attrPath : string) (v : Value) (pos : Pos) :
  adds (checkApp attrPath v pos) (appTargets v) anyResult.
Proof.
  unfold checkApp. apply adds_rethrow.
  change (appTargets v) with ([] ++ appTargets v)%list.
  eapply adds_bind.
  - apply adds_App_.
  - intros app (a & bs & ->). simpl.
    apply adds_forEach. intros i _.
    unfold contextTarget. destruct (decodeContext i) as [drvPathS outputName]. simpl.
    destruct (parseStorePath drvPathS) as [p|e|].
    + intros s. unfold bind, lift. cbv beta iota.
      destruct (negb (string_empty outputName) && StorePath_isDerivation p).
      * exact (adds_emplace_back p s).
      * exact (adds_ret tt anyResult I s).
    + intros s. exact (adds_throw e anyResult s).
    + intros s. exact (adds_abort anyResult s).
Qed.

Lemma adds_checkOverlay (attrPath : string) (v : Value) (pos : Pos) :
  adds (checkOverlay attrPath v pos) [] anyResult.
Proof.
  unfold checkOverlay. apply adds_rethrow. eapply adds_seq.
  - apply adds_forceValue.
  - destruct v; try apply adds_throw.
    destruct (_ || _); [apply adds_throw|].
    destruct (dynamic_cast_ExprLambda _); [|apply adds_throw].
    destruct (_ || _); [apply adds_throw|now apply adds_ret].
Qed.

Lemma adds_checkModule (attrPath : string) (v : Value) (pos : Pos) :
  adds (checkModule attrPath v pos) [] anyResult.
Proof.
  unfold checkModule. apply adds_rethrow. eapply adds_seq.
  - apply adds_forceValue.
  - destruct v; try apply adds_throw.
    + destruct (formals _); [|apply adds_throw].
      destruct (negb _); [apply adds_throw|now apply adds_ret].
    + apply adds_forEach_nil. intros attr _.
      apply adds_rethrow, adds_forceValue.
Qed.

Lemma checkHydraJobs_unfold (attrPath : string) (v : Value) (pos : Pos) :
  checkHydraJobs attrPath v pos =
  TRY
    (forceAttrs v pos ;;
     if isDerivation v then
       throw (Error_ "jobset should not be a derivation at top-level")
     else
       forEach (fun attr =>
         forceAttrs (attr_value attr) (attr_pos attr) ;;
         if negb (isDerivation (attr_value attr)) then
           checkHydraJobs (attrPath ++ "." ++ attr_name attr)
             (attr_value attr) (attr_pos attr)
         else ret tt) (attrsOf v))
  CATCH e =>
    throw (addPrefix ("while checking the Hydra jobset '" ++ ANSI_BOLD ++ attrPath
                      ++ ANSI_NORMAL ++ "' at " ++ pos ++ ":" ++ nl) e).
Proof. destruct v; reflexivity. Qed.

Lemma adds_checkHydraJobs (v : Value) :
  forall (attrPath : string) (pos : Pos),
    adds (checkHydraJobs attrPath v pos) [] anyResult.
Proof.
  induction v as [a msg|a n|a x c|a f|a k attrs IH] using Value_nested_ind;
    intros attrPath pos; rewrite checkHydraJobs_unfold;
    apply adds_rethrow; (eapply adds_seq; [apply adds_forceAttrs|]);
    (destruct (isDerivation _); [apply adds_throw|]);
    apply adds_forEach_nil; simpl; try contradiction.
  intros attr Hattr. eapply adds_seq; [apply adds_forceAttrs|].
  destruct (negb _); [now apply IH|now apply adds_ret].
Qed.

Lemma adds_findAlongAttrPath_tokens (attrPath : string) (tokens : list string) :
  forall v, adds (findAlongAttrPath_tokens attrPath tokens v) [] anyResult.
Proof.
  induction tokens as [|t tokens IH]; intros v; simpl.
  - now apply adds_ret.
  - eapply adds_seq; [apply adds_forceValue|].
    destruct v; try apply adds_throw.
    destruct (Bindings_get t attrs); [apply IH|apply adds_throw].
Qed.

Lemma adds_checkNixOSConfiguration (attrPath : string) (v : Value) (pos : Pos) :
  adds (checkNixOSConfiguration attrPath v pos) [] anyResult.
Proof.
  unfold checkNixOSConfiguration, findAlongAttrPath. apply adds_rethrow.
  change (@nil StorePathWithOutputs) with (@nil StorePathWithOutputs ++ [])%list.
  eapply adds_bind; [apply adds_findAlongAttrPath_tokens|].
  intros vToplevel _. eapply adds_seq; [apply adds_forceAttrs|].
  destruct (negb _); [apply adds_throw|now apply adds_ret].
Qed.

Ltac adds_step :=
  first
    [ apply adds_throw
    | apply adds_checkOverlay
    | apply adds_checkModule
    | apply adds_checkHydraJobs
    | apply adds_checkNixOSConfiguration
    | apply adds_warn
    | apply adds_checkSystemName
    | eapply adds_seq; [apply adds_forceAttrs|]
    | eapply adds_seq; [apply adds_checkSystemName|]
    | eapply adds_seq; [apply adds_checkDerivation|]
    | apply adds_forEach_nil; intros ? _
    | apply adds_ret; exact I ].

Lemma adds_checks_loop (name : string) (v : Value) :
  adds
    (forEach (fun attr =>
       checkSystemName (attr_name attr) (attr_pos attr) ;;
       forceAttrs (attr_value attr) (attr_pos attr) ;;
       forEach (fun attr2 =>
         drvPath <- checkDerivation
                      (name ++ "." ++ attr_name attr ++ "." ++ attr_name attr2)
                      (attr_value attr2) (attr_pos attr2) ;;
         if attr_name attr =? thisSystem then drvPaths_emplace_back drvPath
         else ret tt)
         (attrsOf (attr_value attr)))
       (attrsOf v))
    (checksTargets v) anyResult.
Proof.
  unfold checksTargets. apply adds_forEach. intros attr _.
  do 2 adds_step.
  destruct (attr_name attr =? thisSystem).
  - apply adds_forEach. intros attr2 _.
    change (checkTarget (attr_value attr2))
      with ([] ++ checkTarget (attr_value attr2))%list.
    eapply adds_bind; [apply adds_checkDerivation|].
    intros p Hp. simpl in Hp. rewrite Hp. apply adds_emplace_back.
  - repeat adds_step.
Qed.

Lemma checkOutput_shape (name : string) (v : Value) (pos : Pos) :
  exists K : M unit,
    checkOutput name v pos =
      (TRY (forceValue v pos ;; K)
       CATCH e => throw (addPrefix (outputFrame name) e)) /\
    adds K (outputTargets name v) anyResult.
Proof.
  eexists. split; [reflexivity|]. unfold outputTargets.
  destruct (name =? "checks").
  { adds_step. apply adds_checks_loop. }
  destruct (name =? "packages").
  { eapply adds_nil_any. repeat adds_step. }
  destruct (name =? "apps").
  { adds_step. apply adds_forEach. intros attr _. do 2 adds_step.
    apply adds_forEach. intros attr2 _. apply adds_checkApp. }
  destruct ((name =? "defaultPackage") || (name =? "devShell")).
  { eapply adds_nil_any. repeat adds_step. }
  destruct (name =? "defaultApp").
  { adds_step. apply adds_forEach. intros attr _. adds_step. apply adds_checkApp. }
  repeat (match goal with
          | |- adds (if ?b then _ else _) _ _ => destruct b
          end; [repeat adds_step|]).
  adds_step.
Qed.

Lemma adds_checkOutput (name : string) (v : Value) (pos : Pos) :
  adds (checkOutput name v pos) (outputTargets name v) anyResult.
Proof.
  destruct (checkOutput_shape name v pos) as (K & -> & HK).
  apply adds_rethrow. eapply adds_seq; [apply adds_forceValue|exact HK].
Qed.

Lemma checkOutput_forces_first (name : string) (v : Value) (pos : Pos) (s : State) :
  exists fl,
    forced (snd (checkOutput name v pos s)) = (forced s ++ addrOf v :: fl)%list.
Proof.
  destruct (checkOutput_shape name v pos) as (K & -> & HK).
  unfold tryCatch, bind, forceValue, logForce, throw, ret.
  destruct v as [a msg|a z|a x c|a f|a k bs]; simpl;
    try (now exists []);
    match goal with
    | |- context [K ?st] =>
        destruct (HK st) as (_ & _ & (fl & Hfl) & _);
        exists fl; destruct (K st) as [[[]|e|] s1];
        simpl in *; now rewrite Hfl, <- app_assoc
    end.
Qed.

Lemma evaluateFlake_unfold (a0 a1 : Addr) (k0 k1 : AttrsKind) (bs outs : Bindings)
    (aOutputs : Attr Value) (s : State) :
  Bindings_get "outputs" bs = Some aOutputs ->
  attr_value aOutputs = vAttrs a1 k1 outs ->
  evaluateFlake (vAttrs a0 k0 bs) s = forEach dispatch outs (afterForce [a0; a1] s).
Proof.
  intros Hget Hval. unfold evaluateFlake, enumerateOutputs. run_monad.
  rewrite Hget, Hval. simpl. now rewrite <- app_assoc.
Qed.

Lemma adds_evaluateFlake (vFlake : Value) :
  adds (evaluateFlake vFlake) (expectedTargets (outputsOf vFlake)) anyResult.
Proof.
  unfold evaluateFlake, enumerateOutputs, expectedTargets, outputsOf.
  adds_step.
  destruct (Bindings_get "outputs" (attrsOf vFlake)) as [aOutputs|].
  - adds_step. apply adds_forEach. intros attr _. apply adds_checkOutput.
  - apply adds_abort.
Qed.

(** ** The run as a whole *)

Lemma evaluateFlake_builds (vFlake : Value) (s : State) :
  builds (snd (evaluateFlake vFlake s)) = builds s.
Proof. apply (adds_evaluateFlake vFlake s). Qed.

(** C3. A run hands at most one batch to [buildPaths]: the whole of
    [drvPaths], when the evaluation pass returned, building is enabled and
    [drvPaths] is not empty; in every other case (a validator threw,
    [--no-build], nothing collected) nothing is handed over, so what was
    collected before a failure is never submitted. *)
Theorem buildPaths_called_once (build : bool) (vFlake : Value) (s : State) :
  let pass := evaluateFlake vFlake (declared s) in
  builds (snd (run build vFlake s)) =
  (builds s ++
     (if isOk (fst pass) && build && negb (is_nil (drvPaths (snd pass)))
      then [drvPaths (snd pass)]
      else []))%list.
Proof.
  intros pass. unfold run, bind, drvPaths_declare, drvPaths_read.
  fold (declared s). fold pass.
  assert (Hb : builds (snd pass) = builds s)
    by exact (evaluateFlake_builds vFlake (declared s)).
  destruct pass as [[[]|e|] s1]; simpl in *.
  - destruct build; simpl.
    + destruct (drvPaths s1); simpl; rewrite Hb; now rewrite ?app_nil_r.
    + now rewrite Hb, app_nil_r.
  - now rewrite Hb, app_nil_r.
  - now rewrite Hb, app_nil_r.
Qed.

(** C9. The dispatcher forces the value of an output before it looks at
    its name: the first cell forced for an output is its own value, and an
    output whose value fails to evaluate, whatever its name, recognized or
    not, throws the evaluation error under the frame of that output; the
    run ends there without a build. *)
Theorem failing_output_aborts_run (build : bool) (a0 a1 a : Addr) (k0 k1 : AttrsKind)
    (bs pre post : Bindings) (aOutputs : Attr Value) (name msg : string) (p : Pos)
    (s s1 : State) :
  Bindings_get "outputs" bs = Some aOutputs ->
  attr_value aOutputs = vAttrs a1 k1 (pre ++ mkAttr name (vThunkThrows a msg) p :: post) ->
  forEach dispatch pre (afterForce [a0; a1] (declared s)) = (Ok tt, s1) ->
  (forall (name' : string) (v' : Value) (pos' : Pos) (s' : State),
      exists fl,
        forced (snd (checkOutput name' v' pos' s')) =
        (forced s' ++ addrOf v' :: fl)%list) /\
  checkOutput name (vThunkThrows a msg) p s1 =
    (Throw (mkError (outputFrame name) msg), afterForce [a] s1) /\
  run build (vAttrs a0 k0 bs) s =
    (Throw (mkError (outputFrame name) msg), afterForce [a] s1) /\
  builds (afterForce [a] s1) = builds s.
Proof.
  intros Hget Hval Hpre.
  assert (Hrun : evaluateFlake (vAttrs a0 k0 bs) (declared s) =
                 (Throw (mkError (outputFrame name) msg), afterForce [a] s1)).
  { rewrite (evaluateFlake_unfold _ _ _ _ _ _ _ _ Hget Hval).
    rewrite forEach_app, Hpre, forEach_cons. unfold dispatch at 1.
    cbn [attr_name attr_value attr_pos].
    now rewrite checkOutput_failing_value. }
  split; [exact checkOutput_forces_first|].
  split; [apply checkOutput_failing_value|]. split.
  - unfold run, bind, drvPaths_declare. fold (declared s). now rewrite Hrun.
  - pose proof (evaluateFlake_builds (vAttrs a0 k0 bs) (declared s)) as Hb.
    rewrite Hrun in Hb. exact Hb.
Qed.

(** ** Job sets *)

Lemma isOk_rethrow {A} (m : M A) (g : Error -> Error) (s : State) :
  isOk (fst ((TRY m CATCH e => throw (g e)) s)) = isOk (fst (m s)).
Proof. unfold tryCatch, throw. now destruct (m s) as [[a|e|] s1]. Qed.

Lemma forEach_isOk {A} (f : A -> M unit) (P : A -> bool) (xs : list A) :
  (forall x, In x xs -> forall s, isOk (fst (f x s)) = P x) ->
  forall s, isOk (fst (forEach f xs s)) = forallb P xs.
Proof.
  induction xs as [|x xs IH]; intros Hf s; [reflexivity|].
  rewrite forEach_cons. simpl forallb.
  pose proof (Hf x (or_introl eq_refl) s) as Hx.
  destruct (f x s) as [[[]|e|] s1]; simpl in Hx; rewrite <- Hx; simpl; auto.
  apply IH. intros y Hy. apply Hf. now right.
Qed.

Lemma checkHydraJobs_entries (attrPath : string) (a : Addr) (k : AttrsKind)
    (attrs : Bindings) (pos : Pos) (s : State) :
  isDerivation (vAttrs a k attrs) = false ->
  checkHydraJobs attrPath (vAttrs a k attrs) pos s =
  (TRY forEach (hydraEntry attrPath) attrs
   CATCH e => throw (addPrefix (hydraFrame attrPath pos) e)) (afterForce [a] s).
Proof.
  intros Hk. rewrite checkHydraJobs_unfold.
  unfold tryCatch at 1, bind at 1. unfold forceAttrs, forceValue, logForce, bind, ret.
  cbv beta iota. rewrite Hk. reflexivity.
Qed.

Lemma checkHydraJobs_isOk (v : Value) :
  forall (attrPath : string) (pos : Pos) (s : State),
    isOk (fst (checkHydraJobs attrPath v pos s)) = wfJobset v.
Proof.
  induction v as [a msg|a n|a x c|a f|a k attrs IH] using Value_nested_ind;
    intros attrPath pos s; try reflexivity.
  destruct k as [|drv|app]; try reflexivity;
    (rewrite checkHydraJobs_entries by reflexivity;
     rewrite isOk_rethrow; simpl wfJobset;
     apply forEach_isOk; intros attr Hattr s1;
     unfold hydraEntry, bind, forceAttrs, forceValue, logForce, ret, throw;
     specialize (IH attr Hattr);
     destruct (attr_value attr) as [| | | |a' [|drv'|app'] attrs']; try reflexivity;
     apply IH).
Qed.

Lemma wfJobset_deep (depth : nat) (leaf : DrvInfo) :
  wfJobset (deepJobset depth leaf) = true.
Proof.
  induction depth as [|d IH]; simpl; [reflexivity|].
  now rewrite IH, orb_true_r.
Qed.

(** C4. [checkHydraJobs] throws at once, having forced nothing but the
    job set itself, when the job set is a derivation; otherwise it goes
    through the entries: each entry is forced as a mapping, a derivation is
    accepted as it is, anything else is checked as a job set under the path
    extended by the name of the entry.  It returns exactly for the mappings
    that are job sets all the way down, at any depth. *)
Theorem checkHydraJobs_recurses (attrPath : string) (v : Value) (pos : Pos) (s : State) :
  (forall a drv attrs,
      checkHydraJobs attrPath (vAttrs a (kDerivation drv) attrs) pos s =
      (Throw (mkError (hydraFrame attrPath pos)
                "jobset should not be a derivation at top-level"),
       afterForce [a] s)) /\
  (forall a app attrs,
      checkHydraJobs attrPath (vAttrs a kPlain attrs) pos s =
        (TRY forEach (hydraEntry attrPath) attrs
         CATCH e => throw (addPrefix (hydraFrame attrPath pos) e)) (afterForce [a] s) /\
      checkHydraJobs attrPath (vAttrs a (kApp app) attrs) pos s =
        (TRY forEach (hydraEntry attrPath) attrs
         CATCH e => throw (addPrefix (hydraFrame attrPath pos) e)) (afterForce [a] s)) /\
  (forall name a drv attrs p,
      hydraEntry attrPath (mkAttr name (vAttrs a (kDerivation drv) attrs) p) s =
      (Ok tt, afterForce [a] s)) /\
  (forall name a attrs p,
      hydraEntry attrPath (mkAttr name (vAttrs a kPlain attrs) p) s =
      checkHydraJobs (attrPath ++ "." ++ name) (vAttrs a kPlain attrs) p
        (afterForce [a] s)) /\
  isOk (fst (checkHydraJobs attrPath v pos s)) = wfJobset v /\
  (forall depth leaf,
      fst (checkHydraJobs attrPath (deepJobset depth leaf) pos s) = Ok tt).
Proof.
  split; [|split; [|split; [|split; [|split]]]].
  - intros a drv attrs. rewrite checkHydraJobs_unfold. run_monad.
    now rewrite addPrefix_Error_.
  - intros a app attrs. split; now apply checkHydraJobs_entries.
  - reflexivity.
  - reflexivity.
  - apply checkHydraJobs_isOk.
  - intros depth leaf.
    pose proof (checkHydraJobs_isOk (deepJobset depth leaf) attrPath pos s) as H.
    rewrite wfJobset_deep in H.
    now destruct (fst (checkHydraJobs attrPath (deepJobset depth leaf) pos s)) as [[]| |].
Qed.

(** ** NixOS configurations *)

Lemma parseAttrPath_toplevel :
  parseAttrPath "config.system.build.toplevel" = toplevelPath.
Proof. vm_compute. reflexivity. Qed.

Lemma findAlongAttrPath_tokens_select (attrPath : string) (names : list string) :
  forall (v : Value) (s : State),
    snd (findAlongAttrPath_tokens attrPath names v s) = afterForce (visited names v) s /\
    match select names v with
    | Some t => fst (findAlongAttrPath_tokens attrPath names v s) = Ok t
    | None => exists msg,
        fst (findAlongAttrPath_tokens attrPath names v s) = Throw (Error_ msg)
    end.
Proof.
  induction names as [|n names IH]; intros v s; simpl.
  - split; [|reflexivity]. unfold afterForce. rewrite app_nil_r. now destruct s.
  - unfold bind, forceValue, logForce, ret, throw.
    destruct v as [a msg|a z|a x c|a f|a k bs]; simpl;
      try (split; [reflexivity|eexists; reflexivity]).
    destruct (Bindings_get n bs) as [attr|]; simpl.
    + destruct (IH (attr_value attr) (afterForce [a] s)) as [Hs Hr].
      split; [|exact Hr].
      unfold afterForce at 1 in Hs. unfold afterForce in *. simpl in *.
      rewrite <- app_assoc in Hs. exact Hs.
    + split; [reflexivity|eexists; reflexivity].
Qed.

Lemma checkNixOSConfiguration_run (attrPath : string) (v : Value) (pos : Pos)
    (s : State) :
  exists r,
    checkNixOSConfiguration attrPath v pos s =
      (r, afterForce (visitedWithEnd toplevelPath v) s) /\
    isOk r = wfNixOSConfiguration v /\
    (r = Ok tt \/ exists msg, r = Throw (mkError (nixosFrame attrPath pos) msg)).
Proof.
  unfold checkNixOSConfiguration, findAlongAttrPath, wfNixOSConfiguration,
    visitedWithEnd.
  rewrite parseAttrPath_toplevel. fold (nixosFrame attrPath pos).
  destruct (findAlongAttrPath_tokens_select "config.system.build.toplevel"
              toplevelPath v s) as [Hs Hr].
  unfold tryCatch, bind.
  destruct (findAlongAttrPath_tokens "config.system.build.toplevel" toplevelPath v s)
    as [r s1]. cbn [fst snd] in Hs, Hr. subst s1.
  destruct (select toplevelPath v) as [t|].
  - subst r. unfold forceAttrs, forceValue, logForce, bind, ret, throw, afterForce.
    destruct t as [a msg|a z|a x c|a f|a [|drv|app] bs]; simpl;
      rewrite ?addPrefix_Error_, <- ?app_assoc;
      eexists; (split; [reflexivity|split; [reflexivity|]]);
      solve [now left | right; eexists; reflexivity].
  - destruct Hr as [msg ->]. simpl. rewrite addPrefix_Error_, app_nil_r.
    eexists; (split; [reflexivity|split; [reflexivity|]]).
    right. eexists; reflexivity.
Qed.

(** C7. [checkNixOSConfiguration] goes down the one path
    [config.system.build.toplevel] and forces what it finds there: it
    returns exactly when the path leads to a derivation, it throws under
    the frame naming the configuration otherwise, and the only cells it
    forces are those on that path. *)
Theorem checkNixOSConfiguration_toplevel (attrPath : string) (v : Value) (pos : Pos)
    (s : State) :
  isOk (fst (checkNixOSConfiguration attrPath v pos s)) = wfNixOSConfiguration v /\
  (fst (checkNixOSConfiguration attrPath v pos s) = Ok tt \/
   exists msg,
     fst (checkNixOSConfiguration attrPath v pos s) =
     Throw (mkError (nixosFrame attrPath pos) msg)) /\
  snd (checkNixOSConfiguration attrPath v pos s) =
    afterForce (visitedWithEnd toplevelPath v) s.
Proof.
  destruct (checkNixOSConfiguration_run attrPath v pos s) as (r & E & Hok & Hr).
  rewrite E. cbn [fst snd]. auto.
Qed.

(** ** Well-formed manifests *)

Lemma yields_ret {A} (a : A) : yields (ret a) a [].
Proof. intros s. exists s. now rewrite app_nil_r. Qed.

Lemma yields_bind {A B} (m : M A) (f : A -> M B) (a : A) (b : B)
    (l1 l2 : list StorePathWithOutputs) :
  yields m a l1 -> yields (f a) b l2 -> yields (bind m f) b (l1 ++ l2)%list.
Proof.
  intros Hm Hf s. destruct (Hm s) as (s1 & E1 & D1).
  destruct (Hf s1) as (s2 & E2 & D2).
  exists s2. unfold bind. rewrite E1, E2, D2, D1, app_assoc. auto.
Qed.

Lemma yields_seq {A B} (m : M A) (k : M B) (a : A) (b : B)
    (l : list StorePathWithOutputs) :
  yields m a [] -> yields k b l -> yields (m ;; k) b l.
Proof.
  intros Hm Hk. change l with ([] ++ l)%list. now apply yields_bind with a.
Qed.

Lemma yields_rethrow {A} (m : M A) (g : Error -> Error) (a : A)
    (l : list StorePathWithOutputs) :
  yields m a l -> yields (TRY m CATCH e => throw (g e)) a l.
Proof.
  intros Hm s. destruct (Hm s) as (s1 & E1 & D1).
  exists s1. unfold tryCatch. now rewrite E1.
Qed.

Lemma yields_forEach {A} (f : A -> M unit) (g : A -> list StorePathWithOutputs)
    (xs : list A) :
  (forall x, In x xs -> yields (f x) tt (g x)) ->
  yields (forEach f xs) tt (flat_map g xs).
Proof.
  induction xs as [|x xs IH]; intros Hf; simpl.
  - apply yields_ret.
  - apply yields_bind with tt.
    + apply Hf. now left.
    + apply IH. intros y Hy. apply Hf. now right.
Qed.

Lemma flat_map_nil {A B} (xs : list A) : flat_map (fun _ : A => @nil B) xs = [].
Proof. induction xs; simpl; auto. Qed.

Lemma yields_forEach_nil {A} (f : A -> M unit) (xs : list A) :
  (forall x, In x xs -> yields (f x) tt []) ->
  yields (forEach f xs) tt [].
Proof.
  intros Hf. rewrite <- (flat_map_nil xs). now apply yields_forEach.
Qed.

(** A call that returns and is known to append nothing. *)
Lemma yields_of_isOk (m : M unit) :
  adds m [] anyResult -> (forall s, isOk (fst (m s)) = true) -> yields m tt [].
Proof.
  intros Hadds Hok s. specialize (Hok s).
  destruct (Hadds s) as (_ & (l & Hl & Hin) & _ & _).
  destruct (m s) as [[[]|e|] s1]; try discriminate.
  exists s1. split; [reflexivity|].
  destruct l as [|x l]; [exact Hl|]. destruct (Hin x). now left.
Qed.

Lemma yields_forceValue (v : Value) (pos : Pos) :
  evaluates v = true -> yields (forceValue v pos) tt [].
Proof.
  intros Hv s. unfold forceValue, bind, logForce, ret.
  destruct v; try discriminate; eexists; (split; [reflexivity|]);
    simpl; now rewrite app_nil_r.
Qed.

Lemma yields_forceAttrs (a : Addr) (k : AttrsKind) (bs : Bindings) (pos : Pos) :
  yields (forceAttrs (vAttrs a k bs) pos) tt [].
Proof.
  intros s. unfold forceAttrs, forceValue, bind, logForce, ret.
  eexists; (split; [reflexivity|]); simpl; now rewrite app_nil_r.
Qed.

Lemma yields_checkSystemName (system : string) (pos : Pos) :
  containsSeparator system = true -> yields (checkSystemName system pos) tt [].
Proof.
  intros H s. exists s. rewrite checkSystemName_accepts by assumption.
  now rewrite app_nil_r.
Qed.

Lemma yields_checkDerivation (attrPath : string) (v : Value) (pos : Pos) :
  wfDerivation v = true ->
  exists p, yields (checkDerivation attrPath v pos) p [] /\
            checkTarget v = [mkStorePathWithOutputs p []].
Proof.
  intros Hv. destruct v as [| | | |a [|drv|app] bs]; try discriminate.
  simpl in Hv. simpl checkTarget.
  destruct (parseStorePath (queryDrvPath drv)) as [p|e|] eqn:Hp; try discriminate.
  exists p. split; [|reflexivity].
  intros s. unfold checkDerivation, tryCatch, bind, getDerivation, forceValue,
    logForce, ret, lift. simpl. rewrite Hp.
  eexists; (split; [reflexivity|]); simpl; now rewrite app_nil_r.
Qed.

Lemma yields_checkApp (attrPath : string) (v : Value) (pos : Pos) :
  wfApp v = true -> yields (checkApp attrPath v pos) tt (appTargets v).
Proof.
  intros Hv. destruct v as [| | | |a [|drv|app] bs]; try discriminate.
  simpl in Hv. unfold checkApp. apply yields_rethrow.
  change (appTargets (vAttrs a (kApp app) bs))
    with ([] ++ flat_map contextTarget (context app))%list.
  apply yields_bind with app.
  - intros s. unfold App_, forceAttrs, forceValue, bind, logForce, ret.
    eexists; (split; [reflexivity|]); simpl; now rewrite app_nil_r.
  - apply yields_forEach. intros i Hi.
    rewrite forallb_forall in Hv. specialize (Hv i Hi).
    unfold contextTarget. destruct (decodeContext i) as [drvPathS outputName].
    cbn [fst snd] in *.
    destruct (parseStorePath drvPathS) as [p|e|]; try discriminate.
    intros s. unfold bind, lift. cbv beta iota.
    destruct (negb (string_empty outputName) && StorePath_isDerivation p).
    + eexists; split; reflexivity.
    + exists s. split; [reflexivity|]. now rewrite app_nil_r.
Qed.

Lemma checkModule_isOk (attrPath : string) (v : Value) (pos : Pos) (s : State) :
  wfModule v = true -> isOk (fst (checkModule attrPath v pos s)) = true.
Proof.
  intros Hv. unfold checkModule. rewrite isOk_rethrow.
  unfold bind, forceValue, logForce, ret.
  destruct v as [a msg|a z|a x c|a f|a k attrs]; try discriminate; simpl in *.
  - destruct (formals f) as [fs|]; try discriminate. now rewrite Hv.
  - rewrite <- Hv. apply forEach_isOk. intros attr _ s1.
    rewrite isOk_rethrow. unfold forceValue, bind, logForce, ret, throw.
    now destruct (attr_value attr).
Qed.

Lemma yields_checkOverlay (attrPath : string) (v : Value) (pos : Pos) :
  wfOverlay v = true -> yields (checkOverlay attrPath v pos) tt [].
Proof.
  intros Hv. apply yields_of_isOk; [apply adds_checkOverlay|].
  intros s. now rewrite (proj1 (checkOverlay_outcome attrPath v pos s)).
Qed.

Lemma yields_checkModule (attrPath : string) (v : Value) (pos : Pos) :
  wfModule v = true -> yields (checkModule attrPath v pos) tt [].
Proof.
  intros Hv. apply yields_of_isOk; [apply adds_checkModule|].
  intros s. now apply checkModule_isOk.
Qed.

Lemma yields_checkHydraJobs (attrPath : string) (v : Value) (pos : Pos) :
  wfJobset v = true -> yields (checkHydraJobs attrPath v pos) tt [].
Proof.
  intros Hv. apply yields_of_isOk; [apply adds_checkHydraJobs|].
  intros s. now rewrite checkHydraJobs_isOk.
Qed.

Lemma yields_checkNixOSConfiguration (attrPath : string) (v : Value) (pos : Pos) :
  wfNixOSConfiguration v = true ->
  yields (checkNixOSConfiguration attrPath v pos) tt [].
Proof.
  intros Hv. apply yields_of_isOk; [apply adds_checkNixOSConfiguration|].
  intros s. destruct (checkNixOSConfiguration_run attrPath v pos s) as (r & E & Hok & _).
  rewrite E. cbn [fst]. congruence.
Qed.

Lemma perPlatform_inv (P : Value -> bool) (v : Value) :
  perPlatform P v = true ->
  exists a k attrs,
    v = vAttrs a k attrs /\
    forall attr, In attr attrs ->
      containsSeparator (attr_name attr) = true /\ P (attr_value attr) = true.
Proof.
  destruct v as [| | | |a k attrs]; try discriminate. simpl. intros H.
  exists a, k, attrs. split; [reflexivity|]. intros attr Hattr.
  rewrite forallb_forall in H. specialize (H attr Hattr).
  now apply andb_true_iff in H.
Qed.

Lemma mappingOf_inv (P : Value -> bool) (v : Value) :
  mappingOf P v = true ->
  exists a k attrs,
    v = vAttrs a k attrs /\
    forall attr, In attr attrs -> P (attr_value attr) = true.
Proof.
  destruct v as [| | | |a k attrs]; try discriminate. simpl. intros H.
  exists a, k, attrs. split; [reflexivity|]. now rewrite forallb_forall in H.
Qed.

Lemma wfOutput_recognized (name : string) (v : Value) :
  wfOutput name v = true -> In name recognized.
Proof.
  unfold wfOutput, recognized. intros H.
  repeat match type of H with
         | (if ?n =? ?lit then _ else _) = true =>
             let E := fresh "E" in
             destruct (n =? lit) eqn:E;
             [apply String.eqb_eq in E; subst; simpl; tauto|]
         end.
  discriminate.
Qed.

Ltac enter_mapping H :=
  first [ apply perPlatform_inv in H | apply mappingOf_inv in H ];
  let a := fresh "a" in
  let k := fresh "k" in
  let attrs := fresh "attrs" in
  let E := fresh "E" in
  destruct H as (a & k & attrs & E & H); rewrite E in *; clear E.

Ltac enter_output :=
  apply yields_rethrow;
  (eapply yields_seq; [apply yields_forceValue; reflexivity|]);
  (eapply yields_seq; [apply yields_forceAttrs|]).

Lemma yields_checkOutput (name : string) (v : Value) (pos : Pos) :
  wfOutput name v = true ->
  yields (checkOutput name v pos) tt (outputTargets name v).
Proof.
  intros Hwf. pose proof (wfOutput_recognized name v Hwf) as Hname.
  simpl in Hname.
  repeat (destruct Hname as [<-|Hname]; [|]); try contradiction;
    unfold wfOutput in Hwf; simpl in Hwf; unfold checkOutput, outputTargets; simpl.
  - (* checks *)
    enter_mapping Hwf. enter_output.
    unfold checksTargets. apply yields_forEach. intros attr Hattr.
    destruct (Hwf attr Hattr) as [Hsys Hval]. enter_mapping Hval.
    eapply yields_seq; [now apply yields_checkSystemName|].
    eapply yields_seq; [apply yields_forceAttrs|]. simpl.
    destruct (attr_name attr =? thisSystem).
    + apply yields_forEach. intros attr2 Hattr2.
      destruct (yields_checkDerivation
                  ("checks" ++ "." ++ attr_name attr ++ "." ++ attr_name attr2)
                  (attr_value attr2) (attr_pos attr2) (Hval attr2 Hattr2))
        as (p & Hp & Htarget).
      rewrite Htarget.
      change [mkStorePathWithOutputs p []]
        with ([] ++ [mkStorePathWithOutputs p []])%list.
      apply yields_bind with p; [exact Hp|].
      intros s. eexists; split; reflexivity.
    + apply yields_forEach_nil. intros attr2 Hattr2.
      destruct (yields_checkDerivation
                  ("checks" ++ "." ++ attr_name attr ++ "." ++ attr_name attr2)
                  (attr_value attr2) (attr_pos attr2) (Hval attr2 Hattr2))
        as (p & Hp & _).
      eapply yields_seq; [exact Hp|apply yields_ret].
  - (* packages *)
    enter_mapping Hwf. enter_output.
    apply yields_forEach_nil. intros attr Hattr.
    destruct (Hwf attr Hattr) as [Hsys Hval]. enter_mapping Hval.
    eapply yields_seq; [now apply yields_checkSystemName|].
    eapply yields_seq; [apply yields_forceAttrs|]. simpl.
    apply yields_forEach_nil. intros attr2 Hattr2.
    destruct (yields_checkDerivation
                ("packages" ++ "." ++ attr_name attr ++ "." ++ attr_name attr2)
                (attr_value attr2) (attr_pos attr2) (Hval attr2 Hattr2))
      as (p & Hp & _).
    eapply yields_seq; [exact Hp|apply yields_ret].
  - (* apps *)
    enter_mapping Hwf. enter_output.
    apply yields_forEach. intros attr Hattr.
    destruct (Hwf attr Hattr) as [Hsys Hval]. enter_mapping Hval.
    eapply yields_seq; [now apply yields_checkSystemName|].
    eapply yields_seq; [apply yields_forceAttrs|]. simpl.
    apply yields_forEach. intros attr2 Hattr2.
    apply yields_checkApp. now apply Hval.
  - (* defaultPackage *)
    enter_mapping Hwf. enter_output.
    apply yields_forEach_nil. intros attr Hattr.
    destruct (Hwf attr Hattr) as [Hsys Hval].
    eapply yields_seq; [now apply yields_checkSystemName|].
    destruct (yields_checkDerivation ("defaultPackage" ++ "." ++ attr_name attr)
                (attr_value attr) (attr_pos attr) Hval) as (p & Hp & _).
    eapply yields_seq; [exact Hp|apply yields_ret].
  - (* devShell *)
    enter_mapping Hwf. enter_output.
    apply yields_forEach_nil. intros attr Hattr.
    destruct (Hwf attr Hattr) as [Hsys Hval].
    eapply yields_seq; [now apply yields_checkSystemName|].
    destruct (yields_checkDerivation ("devShell" ++ "." ++ attr_name attr)
                (attr_value attr) (attr_pos attr) Hval) as (p & Hp & _).
    eapply yields_seq; [exact Hp|apply yields_ret].
  - (* defaultApp *)
    enter_mapping Hwf. enter_output.
    apply yields_forEach. intros attr Hattr.
    destruct (Hwf attr Hattr) as [Hsys Hval].
    eapply yields_seq; [now apply yields_checkSystemName|].
    now apply yields_checkApp.
  - (* legacyPackages *)
    enter_mapping Hwf. enter_output.
    apply yields_forEach_nil. intros attr Hattr.
    destruct (Hwf attr Hattr) as [Hsys _]. now apply yields_checkSystemName.
  - (* overlay *)
    apply yields_rethrow.
    eapply yields_seq;
      [apply yields_forceValue; now destruct v|now apply yields_checkOverlay].
  - (* overlays *)
    enter_mapping Hwf. enter_output.
    apply yields_forEach_nil. intros attr Hattr.
    apply yields_checkOverlay. now apply Hwf.
  - (* nixosModule *)
    apply yields_rethrow.
    eapply yields_seq;
      [apply yields_forceValue; now destruct v|now apply yields_checkModule].
  - (* nixosModules *)
    enter_mapping Hwf. enter_output.
    apply yields_forEach_nil. intros attr Hattr.
    apply yields_checkModule. now apply Hwf.
  - (* nixosConfigurations *)
    enter_mapping Hwf. enter_output.
    apply yields_forEach_nil. intros attr Hattr.
    apply yields_checkNixOSConfiguration. now apply Hwf.
  - (* hydraJobs *)
    apply yields_rethrow.
    eapply yields_seq;
      [apply yields_forceValue; now destruct v|now apply yields_checkHydraJobs].
Qed.

(** C1. On a manifest that holds only recognized categories with
    correctly shaped entries, the evaluation pass returns and [drvPaths]
    holds exactly the derivations of the [checks] entries under the current
    platform followed by the derivations named in the contexts of the
    [apps] and [defaultApp] entries (of every platform); the run then
    returns, or hands that batch to the build backend when building is
    enabled and the batch is not empty. *)
Theorem wellformed_manifest_collects (build : bool) (a0 a1 : Addr) (k0 k1 : AttrsKind)
    (bs outs : Bindings) (aOutputs : Attr Value) (s : State) :
  Bindings_get "outputs" bs = Some aOutputs ->
  attr_value aOutputs = vAttrs a1 k1 outs ->
  wfManifest outs = true ->
  exists s1,
    evaluateFlake (vAttrs a0 k0 bs) (declared s) = (Ok tt, s1) /\
    drvPaths s1 = expectedTargets outs /\
    run build (vAttrs a0 k0 bs) s =
      (if build && negb (is_nil (expectedTargets outs))
       then store_buildPaths (expectedTargets outs) s1
       else (Ok tt, s1)).
Proof.
  intros Hget Hval Hwf.
  assert (Hloop : yields (forEach dispatch outs) tt (expectedTargets outs)).
  { unfold expectedTargets. apply yields_forEach. intros o Ho.
    unfold dispatch. apply yields_checkOutput.
    unfold wfManifest in Hwf. rewrite forallb_forall in Hwf. now apply Hwf. }
  destruct (Hloop (afterForce [a0; a1] (declared s))) as (s1 & E1 & D1).
  simpl in D1. exists s1.
  assert (Hpass : evaluateFlake (vAttrs a0 k0 bs) (declared s) = (Ok tt, s1)).
  { now rewrite (evaluateFlake_unfold _ _ _ _ _ _ _ _ Hget Hval). }
  split; [exact Hpass|]. split; [exact D1|].
  unfold run, bind, drvPaths_declare, drvPaths_read. fold (declared s).
  rewrite Hpass, D1. unfold is_nil.
  destruct build; [|reflexivity].
  now destruct (expectedTargets outs).
Qed.

(** C2, as the code has it.  [drvPaths] is a vector: every step of the
    dispatcher, and the pass as a whole, only appends to it, also when it
    throws; what the [checks] output appends are derivations of entries
    under the current platform, what [apps] and [defaultApp] append are the
    derivations of their contexts under any platform, and no other category
    appends; appending a path that is already there adds it a second
    time. *)
Theorem drvPaths_append_only (name : string) (v vFlake : Value) (pos : Pos)
    (p : StorePath) (s : State) :
  (exists l,
      drvPaths (snd (checkOutput name v pos s)) = (drvPaths s ++ l)%list /\
      incl l (outputTargets name v)) /\
  (exists l,
      drvPaths (snd (evaluateFlake vFlake s)) = (drvPaths s ++ l)%list /\
      incl l (expectedTargets (outputsOf vFlake))) /\
  drvPaths (snd (drvPaths_emplace_back p (snd (drvPaths_emplace_back p s)))) =
    (drvPaths s ++ [mkStorePathWithOutputs p []; mkStorePathWithOutputs p []])%list.
Proof.
  split; [apply (adds_checkOutput name v pos s)|].
  split; [apply (adds_evaluateFlake vFlake s)|].
  simpl. now rewrite <- app_assoc.
Qed.

End Theory.

(** * The theorems at work on the example manifests *)

Lemma wellformed_manifest_collects_witness :
  exists s1,
    @evaluateFlake demo (flakeOf goodOutputs) (declared s0) = (Ok tt, s1) /\
    drvPaths s1 = @expectedTargets demo goodOutputs /\
    @run demo true (flakeOf goodOutputs) s0 =
      (if true && negb (is_nil (@expectedTargets demo goodOutputs))
       then @store_buildPaths demo (@expectedTargets demo goodOutputs) s1
       else (Ok tt, s1)).
Proof.
  apply (@wellformed_manifest_collects demo true 0 1 kPlain kPlain
           [mkAttr "outputs" (vAttrs 1 kPlain goodOutputs) "flake.nix:1:1"]
           goodOutputs
           (mkAttr "outputs" (vAttrs 1 kPlain goodOutputs) "flake.nix:1:1") s0).
  - reflexivity.
  - reflexivity.
  - vm_compute. reflexivity.
Defined.

(** On that manifest the targets are the check of the current platform
    and the derivation behind the app. *)
Example goodOutputs_targets :
  @expectedTargets demo goodOutputs = [pathA; pathHello].
Proof. vm_compute. reflexivity. Qed.

(** After this run [drvPaths] holds the path of [unit.drv] twice, and the
    path of [hello.drv], which comes from [apps.aarch64-darwin] while the
    current platform is [x86_64-linux]: [drvPaths] is no set, and it is not
    restricted to the current platform. *)
Lemma collector_holds_duplicates :
  drvPaths (snd (@run demo false (flakeOf duplicateOutputs) s0)) =
    [pathA; pathA; pathHello] /\
  ~ NoDup (drvPaths (snd (@run demo false (flakeOf duplicateOutputs) s0))).
Proof.
  assert (E : drvPaths (snd (@run demo false (flakeOf duplicateOutputs) s0)) =
              [pathA; pathA; pathHello]) by (vm_compute; reflexivity).
  split; [exact E|]. rewrite E. intros H.
  inversion H as [|x l Hnotin _]; subst. apply Hnotin. now left.
Qed.

Lemma invalid_system_rejected_unforced_witness :
  @checkOutput demo "legacyPackages"
    (vAttrs 2 kPlain
       ([mkAttr "x86_64-linux" (vInt 3 1) "flake.nix:3:5"] ++
        mkAttr "bad_platform_no_dash" (vThunkThrows 4 "boom") "flake.nix:4:5" :: []))
    "flake.nix:2:3" s0 =
  match @checkOutput demo "legacyPackages"
          (vAttrs 2 kPlain [mkAttr "x86_64-linux" (vInt 3 1) "flake.nix:3:5"])
          "flake.nix:2:3" s0 with
  | (Ok _, s1) =>
      (Throw (mkError (@outputFrame demo "legacyPackages")
                (invalidSystem "bad_platform_no_dash" "flake.nix:4:5")), s1)
  | r => r
  end.
Proof.
  apply (@invalid_system_rejected_unforced demo "legacyPackages" 2 kPlain
           [mkAttr "x86_64-linux" (vInt 3 1) "flake.nix:3:5"] []
           "bad_platform_no_dash" (vThunkThrows 4 "boom")
           "flake.nix:4:5" "flake.nix:2:3" s0).
  - simpl. tauto.
  - reflexivity.
Defined.

Lemma unknown_output_warns_witness :
  @checkOutput demo "formatter" (vInt 2 7) "flake.nix:2:3" s0 =
    (Ok tt, afterWarn (unknownOutput "formatter") (afterForce [2] s0)) /\
  forEach (@dispatch demo) (mkAttr "formatter" (vInt 2 7) "flake.nix:2:3" :: packagesOnly) s0 =
    forEach (@dispatch demo) packagesOnly
      (afterWarn (unknownOutput "formatter") (afterForce [2] s0)).
Proof.
  apply (@unknown_output_warns demo "formatter" (vInt 2 7) "flake.nix:2:3"
           packagesOnly s0).
  simpl. intros H.
  repeat (destruct H as [H|H]; [discriminate H|]). exact H.
Defined.

Lemma failing_output_aborts_run_witness :
  (forall (name' : string) (v' : Value) (pos' : Pos) (s' : State),
      exists fl,
        forced (snd (@checkOutput demo name' v' pos' s')) =
        (forced s' ++ addrOf v' :: fl)%list) /\
  @checkOutput demo "formatter" (vThunkThrows 9 "boom") "flake.nix:5:3"
    (snd (forEach (@dispatch demo) packagesOnly (afterForce [0; 1] (declared s0)))) =
    (Throw (mkError (@outputFrame demo "formatter") "boom"),
     afterForce [9]
       (snd (forEach (@dispatch demo) packagesOnly (afterForce [0; 1] (declared s0))))) /\
  @run demo true
    (vAttrs 0 kPlain
       [mkAttr "outputs"
          (vAttrs 1 kPlain
             (packagesOnly ++
              mkAttr "formatter" (vThunkThrows 9 "boom") "flake.nix:5:3" :: []))
          "flake.nix:1:1"]) s0 =
    (Throw (mkError (@outputFrame demo "formatter") "boom"),
     afterForce [9]
       (snd (forEach (@dispatch demo) packagesOnly (afterForce [0; 1] (declared s0))))) /\
  builds
    (afterForce [9]
       (snd (forEach (@dispatch demo) packagesOnly (afterForce [0; 1] (declared s0))))) =
    builds s0.
Proof.
  apply (@failing_output_aborts_run demo true 0 1 9 kPlain kPlain
           [mkAttr "outputs"
              (vAttrs 1 kPlain
                 (packagesOnly ++
                  mkAttr "formatter" (vThunkThrows 9 "boom") "flake.nix:5:3" :: []))
              "flake.nix:1:1"]
           packagesOnly []
           (mkAttr "outputs"
              (vAttrs 1 kPlain
                 (packagesOnly ++
                  mkAttr "formatter" (vThunkThrows 9 "boom") "flake.nix:5:3" :: []))
              "flake.nix:1:1")
           "formatter" "boom" "flake.nix:5:3" s0).
  - reflexivity.
  - reflexivity.
  - vm_compute. reflexivity.
Defined.

(** * Further properties of the checker *)

Section Further.

Context {ext : Externals}.

#[local] Arguments String.append : simpl never.

Ltac run_monad :=
  unfold tryCatch, bind, forceAttrs, forceValue, logForce, throw, ret, afterForce;
  simpl.

(** ** The platform guard *)

Lemma containsSeparator_app (l r : string) :
  containsSeparator (l ++ "-" ++ r) = true.
Proof.
  induction l as [|c l IH].
  - reflexivity.
  - change (containsSeparator (String c (l ++ "-" ++ r)) = true).
    simpl. rewrite IH. apply orb_true_r.
Qed.

(** X1. [checkSystemName] only looks for a ['-']: every string of the
    form [l-r] is accepted, also with [l] or [r] empty, every string
    without ['-'] is rejected, and the state is never touched. *)
Theorem checkSystemName_dash_anywhere (system l r : string) (pos : Pos) (s : State) :
  checkSystemName (l ++ "-" ++ r) pos s = (Ok tt, s) /\
  checkSystemName system pos s =
    (if containsSeparator system then Ok tt
     else Throw (Error_ (invalidSystem system pos)), s).
Proof.
  split.
  - apply checkSystemName_accepts, containsSeparator_app.
  - destruct (containsSeparator system) eqn:E.
    + now apply checkSystemName_accepts.
    + now apply checkSystemName_rejects.
Qed.

(** ** Entries that must be derivations *)

Lemma checkDerivation_not_derivation (attrPath : string) (v : Value) (pos : Pos)
    (s : State) :
  isDerivation v = false ->
  checkDerivation attrPath v pos s =
    (Throw (mkError (derivationFrame attrPath pos) (derivationComplaint attrPath v)),
     afterForce [addrOf v] s).
Proof.
  intros Hv. unfold checkDerivation, getDerivation. run_monad.
  destruct v as [a msg|a z|a x c|a f|a [|drv|app] bs]; try discriminate Hv;
    simpl; now rewrite addPrefix_Error_.
Qed.

(** X2. Under [defaultPackage] and [devShell], an entry of a valid
    platform name that is no derivation ends the check: the error carries
    the frame of the output and the frame of the derivation
    [<output>.<platform>], its message is the evaluation error of the entry
    or names that attribute as not being a derivation, and nothing after the
    entry is forced. *)
Theorem default_entry_must_be_derivation (c : string) (a : Addr) (k : AttrsKind)
    (pre post : Bindings) (system : string) (v : Value) (p pos : Pos)
    (s s1 : State) :
  In c ["defaultPackage"; "devShell"] ->
  containsSeparator system = true ->
  isDerivation v = false ->
  checkOutput c (vAttrs a k pre) pos s = (Ok tt, s1) ->
  checkOutput c (vAttrs a k (pre ++ mkAttr system v p :: post)) pos s =
    (Throw (mkError (outputFrame c ++ derivationFrame (c ++ "." ++ system) p)
              (derivationComplaint (c ++ "." ++ system) v)),
     afterForce [addrOf v] s1).
Proof.
  intros Hc Hsys Hv. simpl in Hc.
  repeat (destruct Hc as [<-|Hc]; [|]); try contradiction;
    unfold checkOutput; run_monad; rewrite forEach_app;
    match goal with
    | |- context [forEach ?f pre ?st] =>
        destruct (forEach f pre st) as [[[]|e'|] s2]
    end; intros H; try discriminate H; injection H as <-;
    rewrite forEach_cons; cbn [attr_name attr_value attr_pos];
    unfold bind; rewrite (checkSystemName_accepts _ _ _ Hsys);
    rewrite (checkDerivation_not_derivation _ _ _ _ Hv); reflexivity.
Qed.

(** *** Stepping through a run *)

Lemma bind_ok {A B} (m : M A) (f : A -> M B) (s s1 : State) (a : A) :
  m s = (Ok a, s1) -> bind m f s = f a s1.
Proof. intros H. unfold bind. now rewrite H. Qed.

Lemma bind_throw {A B} (m : M A) (f : A -> M B) (s s1 : State) (e : Error) :
  m s = (Throw e, s1) -> bind m f s = (Throw e, s1).
Proof. intros H. unfold bind. now rewrite H. Qed.

Lemma bind_ok_inv {A B} (m : M A) (f : A -> M B) (s s2 : State) (b : B) :
  bind m f s = (Ok b, s2) ->
  exists a s1, m s = (Ok a, s1) /\ f a s1 = (Ok b, s2).
Proof.
  unfold bind. destruct (m s) as [[a|e|] s1]; intros H; try discriminate H.
  now exists a, s1.
Qed.

Lemma rethrow_throw {A} (m : M A) (g : Error -> Error) (s s1 : State) (e : Error) :
  m s = (Throw e, s1) -> (TRY m CATCH e => throw (g e)) s = (Throw (g e), s1).
Proof. intros H. unfold tryCatch. now rewrite H. Qed.

Lemma rethrow_ok_inv {A} (m : M A) (g : Error -> Error) (s s1 : State) (a : A) :
  (TRY m CATCH e => throw (g e)) s = (Ok a, s1) -> m s = (Ok a, s1).
Proof.
  unfold tryCatch, throw. destruct (m s) as [[a'|e|] s']; intros H;
    try discriminate H; exact H.
Qed.

Lemma forEach_app_ok {A} (f : A -> M unit) (l1 l2 : list A) (s s1 : State) :
  forEach f l1 s = (Ok tt, s1) -> forEach f (l1 ++ l2) s = forEach f l2 s1.
Proof. intros H. now rewrite forEach_app, H. Qed.

Lemma forEach_app_ok_inv {A} (f : A -> M unit) (l1 l2 : list A) (s s2 : State) :
  forEach f (l1 ++ l2) s = (Ok tt, s2) ->
  exists s1, forEach f l1 s = (Ok tt, s1) /\ forEach f l2 s1 = (Ok tt, s2).
Proof.
  rewrite forEach_app. destruct (forEach f l1 s) as [[[]|e|] s1]; intros H;
    try discriminate H.
  now exists s1.
Qed.

Lemma forEach_one_ok_inv {A} (f : A -> M unit) (x : A) (s s1 : State) :
  forEach f [x] s = (Ok tt, s1) -> f x s = (Ok tt, s1).
Proof.
  rewrite forEach_cons. destruct (f x s) as [[[]|e|] s']; intros H;
    try discriminate H; exact H.
Qed.

Lemma forEach_throws {A} (f : A -> M unit) (x : A) (l : list A) (s s1 : State)
    (e : Error) :
  f x s = (Throw e, s1) -> forEach f (x :: l) s = (Throw e, s1).
Proof. intros H. now rewrite forEach_cons, H. Qed.

Lemma forceValue_ok (v : Value) (pos : Pos) (s : State) :
  evaluates v = true -> forceValue v pos s = (Ok tt, afterForce [addrOf v] s).
Proof. destruct v; try discriminate; reflexivity. Qed.

Lemma forceValue_attrs (a : Addr) (k : AttrsKind) (bs : Bindings) (pos : Pos)
    (s : State) :
  forceValue (vAttrs a k bs) pos s = (Ok tt, afterForce [a] s).
Proof. reflexivity. Qed.

Lemma forceAttrs_ok (a : Addr) (k : AttrsKind) (bs : Bindings) (pos : Pos) (s : State) :
  forceAttrs (vAttrs a k bs) pos s = (Ok tt, afterForce [a] s).
Proof. reflexivity. Qed.

Lemma checkSystemName_ok_inv (system : string) (pos : Pos) (s s1 : State) :
  checkSystemName system pos s = (Ok tt, s1) -> s1 = s.
Proof.
  unfold checkSystemName. destruct (is_npos _); intros H; try discriminate H.
  now injection H.
Qed.

#[local] Arguments bind : simpl never.
#[local] Arguments tryCatch : simpl never.
#[local] Arguments forEach : simpl never.
#[local] Arguments forceValue : simpl never.
#[local] Arguments forceAttrs : simpl never.
#[local] Arguments checkSystemName : simpl never.
#[local] Arguments checkDerivation : simpl never.
#[local] Arguments afterForce : simpl never.

(** X3. Under [checks] and [packages], an entry
    [<output>.<platform>.<name>] that is no derivation ends the check,
    whatever the platform: the error carries the frame of the output and
    the frame of the derivation with that full attribute path, and the
    cells forced are those forced for the entries before it, then the entry
    itself. *)
Theorem check_entry_must_be_derivation (c : string) (a a' : Addr) (k k' : AttrsKind)
    (pre post pre2 post2 : Bindings) (system name : string) (v : Value)
    (p p2 pos : Pos) (s s1 : State) :
  In c ["checks"; "packages"] ->
  isDerivation v = false ->
  checkOutput c (vAttrs a k (pre ++ [mkAttr system (vAttrs a' k' pre2) p])) pos s =
    (Ok tt, s1) ->
  checkOutput c
    (vAttrs a k
       (pre ++ mkAttr system (vAttrs a' k' (pre2 ++ mkAttr name v p2 :: post2)) p
            :: post)) pos s =
    (Throw (mkError
              (outputFrame c ++
               derivationFrame (c ++ "." ++ system ++ "." ++ name) p2)
              (derivationComplaint (c ++ "." ++ system ++ "." ++ name) v)),
     afterForce [addrOf v] s1).
Proof.
  intros Hc Hv. simpl in Hc.
  repeat (destruct Hc as [<-|Hc]; [|]); try contradiction;
    unfold checkOutput; simpl; intros H;
    apply rethrow_ok_inv in H;
    rewrite (bind_ok _ _ _ _ _ (forceValue_attrs _ _ _ _ _)) in H;
    rewrite (bind_ok _ _ _ _ _ (forceAttrs_ok _ _ _ _ _)) in H;
    apply forEach_app_ok_inv in H; destruct H as (sB & Hpre & H);
    apply forEach_one_ok_inv in H; simpl in H;
    apply bind_ok_inv in H; destruct H as ([] & sC & Hsys & H);
    rewrite (bind_ok _ _ _ _ _ (forceAttrs_ok _ _ _ _ _)) in H;
    match goal with
    | |- _ = (Throw (mkError (?f ++ ?q) ?m), _) =>
        change (mkError (f ++ q) m) with (addPrefix f (mkError q m))
    end;
    apply rethrow_throw;
    rewrite (bind_ok _ _ _ _ _ (forceValue_attrs _ _ _ _ _));
    rewrite (bind_ok _ _ _ _ _ (forceAttrs_ok _ _ _ _ _));
    rewrite (forEach_app_ok _ _ _ _ _ Hpre);
    apply forEach_throws; simpl;
    rewrite (bind_ok _ _ _ _ _ Hsys);
    rewrite (bind_ok _ _ _ _ _ (forceAttrs_ok _ _ _ _ _));
    rewrite (forEach_app_ok _ _ _ _ _ H);
    apply forEach_throws; simpl;
    apply bind_throw; now apply checkDerivation_not_derivation.
Qed.

(** ** Overlays *)

Lemma checkOverlay_rejects (attrPath : string) (v : Value) (pos : Pos) (s : State) :
  evaluates v = true ->
  wfOverlay v = false ->
  checkOverlay attrPath v pos s =
    (Throw (mkError (overlayFrame attrPath pos) (overlayComplaint v)),
     afterForce [addrOf v] s).
Proof.
  intros Hv Hwf.
  unfold checkOverlay, tryCatch, bind, forceValue, logForce, ret, throw,
    overlayComplaint.
  unfold wfOverlay in Hwf. unfold plainParam in *.
  destruct v as [a msg|a z|a x c|a f|a k bs]; try discriminate Hv; simpl;
    try (now rewrite addPrefix_Error_).
  destruct (matchAttrs f), (arg f =? "final"); simpl in *;
    try (now rewrite addPrefix_Error_).
  destruct (body f) as [g|t]; simpl in *; try (now rewrite addPrefix_Error_).
  destruct (matchAttrs g), (arg g =? "prev"); simpl in *;
    try discriminate Hwf; now rewrite addPrefix_Error_.
Qed.

(** X4. Under [overlays], the first entry that evaluates but is no
    overlay ends the check: the error carries the frame of the output and
    the frame of the overlay [overlays.<name>]; it blames the parameter
    [prev] exactly when the entry is a function whose first parameter is a
    plain [final], and [final] otherwise; the entries after it are not
    forced. *)
Theorem overlays_entry_rejected (a : Addr) (k : AttrsKind) (pre post : Bindings)
    (name : string) (v : Value) (p pos : Pos) (s s1 : State) :
  evaluates v = true ->
  wfOverlay v = false ->
  checkOutput "overlays" (vAttrs a k pre) pos s = (Ok tt, s1) ->
  checkOutput "overlays" (vAttrs a k (pre ++ mkAttr name v p :: post)) pos s =
    (Throw (mkError (outputFrame "overlays" ++
                     overlayFrame ("overlays" ++ "." ++ name) p)
              (overlayComplaint v)),
     afterForce [addrOf v] s1).
Proof.
  intros Hv Hwf. unfold checkOutput. simpl. intros H.
  apply rethrow_ok_inv in H.
  rewrite (bind_ok _ _ _ _ _ (forceValue_attrs _ _ _ _ _)) in H.
  rewrite (bind_ok _ _ _ _ _ (forceAttrs_ok _ _ _ _ _)) in H.
  match goal with
  | |- _ = (Throw (mkError (?f ++ ?q) ?m), _) =>
      change (mkError (f ++ q) m) with (addPrefix f (mkError q m))
  end.
  apply rethrow_throw.
  rewrite (bind_ok _ _ _ _ _ (forceValue_attrs _ _ _ _ _)).
  rewrite (bind_ok _ _ _ _ _ (forceAttrs_ok _ _ _ _ _)).
  rewrite (forEach_app_ok _ _ _ _ _ H).
  apply forEach_throws. simpl. now apply checkOverlay_rejects.
Qed.

(** ** Modules *)

Lemma checkModule_options (attrs : Bindings) (s : State) :
  forEach (fun attr =>
    TRY forceValue (attr_value attr) (attr_pos attr)
    CATCH e =>
      throw (addPrefix ("while evaluating the option '" ++ ANSI_BOLD
                        ++ attr_name attr ++ ANSI_NORMAL ++ "' at "
                        ++ attr_pos attr ++ ":" ++ nl) e)) attrs s =
  (match firstFailing attrs with
   | None => Ok tt
   | Some bad =>
       Throw (mkError (optionFrame (attr_name bad) (attr_pos bad))
                (thunkMessage (attr_value bad)))
   end, afterForce (forcedOptions attrs) s).
Proof.
  revert s. induction attrs as [|x attrs IH]; intros s.
  - unfold afterForce. simpl. rewrite app_nil_r. now destruct s.
  - rewrite forEach_cons. unfold firstFailing. simpl find. simpl forcedOptions.
    destruct (attr_value x) as [a msg|a z|a y c|a f|a k bs] eqn:Ex;
      unfold tryCatch, forceValue, bind, logForce, ret, throw; simpl;
      try (rewrite IH; unfold afterForce; simpl; rewrite <- app_assoc;
           reflexivity).
    rewrite addPrefix_Error_, Ex. reflexivity.
Qed.

(** X5. [checkModule] accepts a function exactly when its parameter is an
    open attribute pattern, whatever its name and body, and an attribute
    set exactly when all its option values evaluate.  For an attribute set
    it forces the set, then the option values in order up to the first that
    fails, and no deeper; the error of that option carries the frame of the
    module and the frame of the option. *)
Theorem checkModule_outcome (attrPath : string) (v : Value) (pos : Pos) (s : State) :
  isOk (fst (checkModule attrPath v pos s)) = wfModule v /\
  (forall a k attrs,
      checkModule attrPath (vAttrs a k attrs) pos s =
      (match firstFailing attrs with
       | None => Ok tt
       | Some bad =>
           Throw (mkError (moduleFrame attrPath pos ++
                           optionFrame (attr_name bad) (attr_pos bad))
                    (thunkMessage (attr_value bad)))
       end, afterForce (a :: forcedOptions attrs) s)) /\
  (forall a x x' fs b b',
      checkModule attrPath (vLambda a (mkExprLambda x fs b)) pos s =
      checkModule attrPath (vLambda a (mkExprLambda x' fs b')) pos s).
Proof.
  assert (E : forall a k attrs,
      checkModule attrPath (vAttrs a k attrs) pos s =
      (match firstFailing attrs with
       | None => Ok tt
       | Some bad =>
           Throw (mkError (moduleFrame attrPath pos ++
                           optionFrame (attr_name bad) (attr_pos bad))
                    (thunkMessage (attr_value bad)))
       end, afterForce (a :: forcedOptions attrs) s)).
  { intros a k attrs. unfold checkModule. unfold tryCatch at 1.
    rewrite (bind_ok _ _ _ _ _ (forceValue_attrs _ _ _ _ _)).
    rewrite checkModule_options.
    unfold afterForce. simpl. rewrite <- app_assoc.
    destruct (firstFailing attrs); reflexivity. }
  split; [|split; [exact E|reflexivity]].
  destruct v as [a msg|a z|a x c|a f|a k attrs]; try reflexivity.
  - unfold checkModule, tryCatch, bind, forceValue, logForce, ret, throw. simpl.
    destruct (formals f) as [fs|]; [|reflexivity].
    now destruct (ellipsis fs).
  - rewrite E. simpl. unfold firstFailing.
    induction attrs as [|y attrs IH]; [reflexivity|]. simpl.
    destruct (evaluates (attr_value y)); simpl; [exact IH|reflexivity].
Qed.

(** ** Job sets: failures and forcing *)

(** X6. In a job set, the first entry that fails ends the check of the
    whole job set: its error is rethrown with the frame of this job set put
    in front, and the state is the one the entry left, so that the entries
    after it are never forced. *)
Theorem hydra_entry_failure_framed (attrPath : string) (a : Addr) (k : AttrsKind)
    (pre post : Bindings) (name : string) (w : Value) (p pos : Pos)
    (s s1 s2 : State) (e : Error) :
  isDerivation (vAttrs a k (pre ++ mkAttr name w p :: post)) = false ->
  forEach (hydraEntry attrPath) pre (afterForce [a] s) = (Ok tt, s1) ->
  hydraEntry attrPath (mkAttr name w p) s1 = (Throw e, s2) ->
  checkHydraJobs attrPath (vAttrs a k (pre ++ mkAttr name w p :: post)) pos s =
    (Throw (mkError (hydraFrame attrPath pos ++ prefix_ e) (err e)), s2).
Proof.
  intros Hk Hpre Hentry.
  rewrite (checkHydraJobs_entries _ _ _ _ _ _ Hk).
  change (mkError (hydraFrame attrPath pos ++ prefix_ e) (err e))
    with (addPrefix (hydraFrame attrPath pos) e).
  apply rethrow_throw. rewrite (forEach_app_ok _ _ _ _ _ Hpre).
  now apply forEach_throws.
Qed.

Lemma forEach_forced_length {A} (f : A -> M unit) (n : A -> nat) (xs : list A) :
  (forall x, In x xs -> forall s, exists s',
      f x s = (Ok tt, s') /\
      exists fl, forced s' = (forced s ++ fl)%list /\ length fl = n x) ->
  forall s, exists s',
    forEach f xs s = (Ok tt, s') /\
    exists fl, forced s' = (forced s ++ fl)%list /\ length fl = list_sum (map n xs).
Proof.
  induction xs as [|x xs IH]; intros Hf s.
  - exists s. split; [reflexivity|]. exists []. now rewrite app_nil_r.
  - destruct (Hf x (or_introl eq_refl) s) as (s1 & E1 & fl1 & F1 & L1).
    destruct (IH (fun y Hy => Hf y (or_intror Hy)) s1) as (s2 & E2 & fl2 & F2 & L2).
    exists s2. rewrite forEach_cons, E1. split; [exact E2|].
    exists (fl1 ++ fl2)%list. rewrite F2, F1, <- app_assoc. split; [reflexivity|].
    rewrite length_app. simpl. now rewrite L1, L2.
Qed.

Lemma list_sum_split {A} (n f g : A -> nat) (xs : list A) :
  (forall x, In x xs -> n x = f x + 2 * g x) ->
  list_sum (map n xs) = list_sum (map f xs) + 2 * list_sum (map g xs).
Proof.
  induction xs as [|x xs IH]; intros H; simpl; [reflexivity|].
  rewrite (H x (or_introl eq_refl)), IH by (intros y Hy; apply H; now right).
  lia.
Qed.

Lemma checkHydraJobs_forced_count (v : Value) :
  wfJobset v = true ->
  forall (attrPath : string) (pos : Pos) (s : State),
  exists s',
    checkHydraJobs attrPath v pos s = (Ok tt, s') /\
    exists fl,
      forced s' = (forced s ++ fl)%list /\
      length fl = 1 + countLeaves v + 2 * countNested v.
Proof.
  induction v as [a msg|a n|a x c|a f|a k attrs IH] using Value_nested_ind;
    try discriminate.
  intros Hwf attrPath pos s.
  assert (Hk : isDerivation (vAttrs a k attrs) = false) by now destruct k.
  assert (Hall : forallb (fun a => isDerivation (attr_value a) || wfJobset (attr_value a))
                   attrs = true) by now destruct k.
  rewrite forallb_forall in Hall.
  rewrite (checkHydraJobs_entries _ _ _ _ _ _ Hk).
  destruct (forEach_forced_length (hydraEntry attrPath)
              (fun attr => if isDerivation (attr_value attr) then 1
                           else 1 + (1 + countLeaves (attr_value attr)
                                     + 2 * countNested (attr_value attr)))
              attrs) with (s := afterForce [a] s) as (s1 & E1 & fl & F1 & L1).
  { intros attr Hattr s0. specialize (Hall attr Hattr). specialize (IH attr Hattr).
    unfold hydraEntry.
    destruct (attr_value attr) as [| | | |a' k' attrs'] eqn:Ev; try discriminate.
    rewrite (bind_ok _ _ _ _ _ (forceAttrs_ok _ _ _ _ _)).
    destruct (isDerivation (vAttrs a' k' attrs')) eqn:Ed; simpl negb; cbv iota.
    - eexists. split; [reflexivity|]. exists [a']. split; reflexivity.
    - simpl in Hall.
      destruct (IH Hall (attrPath ++ "." ++ attr_name attr) (attr_pos attr)
                  (afterForce [a'] s0)) as (s' & E' & fl' & F' & L').
      exists s'. split; [exact E'|]. exists (a' :: fl').
      split.
      + rewrite F'. unfold afterForce. simpl. now rewrite <- app_assoc.
      + simpl. now rewrite L'. }
  exists s1. unfold tryCatch. rewrite E1. split; [reflexivity|].
  exists (a :: fl). split.
  - rewrite F1. unfold afterForce. simpl. now rewrite <- app_assoc.
  - simpl length. rewrite L1.
    rewrite (list_sum_split _
               (fun a => if isDerivation (attr_value a) then 1
                         else countLeaves (attr_value a))
               (fun a => if isDerivation (attr_value a) then 0
                         else S (countNested (attr_value a)))).
    + reflexivity.
    + intros attr _. destruct (isDerivation (attr_value attr)); lia.
Qed.

(** X7. On a well-formed job set [checkHydraJobs] returns, and the
    number of [forceValue] calls it makes is one for the job set itself, one
    for each derivation at a leaf and two for each nested job set (once as
    an entry of its parent, once more when it is checked in its turn). *)
Theorem checkHydraJobs_forces (attrPath : string) (v : Value) (pos : Pos) (s : State) :
  wfJobset v = true ->
  exists s' fl,
    checkHydraJobs attrPath v pos s = (Ok tt, s') /\
    forced s' = (forced s ++ fl)%list /\
    length fl = 1 + countLeaves v + 2 * countNested v.
Proof.
  intros Hwf.
  destruct (checkHydraJobs_forced_count v Hwf attrPath pos s)
    as (s' & E & fl & F & L).
  now exists s', fl.
Qed.

(** ** The checker reads nothing of the state *)

Lemma extend_nil (s : State) : extend s [] [] [] = s.
Proof. destruct s. unfold extend. simpl. now rewrite !app_nil_r. Qed.

Lemma extend_extend (s : State) (f1 f2 : list Addr)
    (d1 d2 : list StorePathWithOutputs) (w1 w2 : list string) :
  extend (extend s f1 d1 w1) f2 d2 w2 =
  extend s (f1 ++ f2)%list (d1 ++ d2)%list (w1 ++ w2)%list.
Proof. unfold extend. simpl. now rewrite <- !app_assoc. Qed.

Lemma quiet_ret {A} (a : A) : quiet (ret a).
Proof. exists (Ok a), [], []. intros s. unfold ret. now rewrite extend_nil. Qed.

Lemma quiet_throw {A} (e : Error) : quiet (@throw A e).
Proof. exists (Throw e), [], []. intros s. unfold throw. now rewrite extend_nil. Qed.

Lemma quiet_abort {A} : quiet (@abort A).
Proof. exists Abort, [], []. intros s. unfold abort. now rewrite extend_nil. Qed.

Lemma quiet_lift {A} (r : Result A) : quiet (lift r).
Proof. exists r, [], []. intros s. unfold lift. now rewrite extend_nil. Qed.

Lemma quiet_bind {A B} (m : M A) (f : A -> M B) :
  quiet m -> (forall a, quiet (f a)) -> quiet (bind m f).
Proof.
  intros (r & fl & dl & Hm) Hf. destruct r as [a|e|].
  - destruct (Hf a) as (r2 & fl2 & dl2 & H2).
    exists r2, (fl ++ fl2)%list, (dl ++ dl2)%list. intros s.
    unfold bind. now rewrite Hm, H2, extend_extend.
  - exists (Throw e), fl, dl. intros s. unfold bind. now rewrite Hm.
  - exists Abort, fl, dl. intros s. unfold bind. now rewrite Hm.
Qed.

Lemma quiet_rethrow {A} (m : M A) (g : Error -> Error) :
  quiet m -> quiet (TRY m CATCH e => throw (g e)).
Proof.
  intros (r & fl & dl & Hm). destruct r as [a|e|].
  - exists (Ok a), fl, dl. intros s. unfold tryCatch. now rewrite Hm.
  - exists (Throw (g e)), fl, dl. intros s. unfold tryCatch. now rewrite Hm.
  - exists Abort, fl, dl. intros s. unfold tryCatch. now rewrite Hm.
Qed.

Lemma quiet_forEach {A} (f : A -> M unit) (xs : list A) :
  (forall x, In x xs -> quiet (f x)) -> quiet (forEach f xs).
Proof.
  induction xs as [|x xs IH]; intros Hf.
  - apply quiet_ret.
  - change (forEach f (x :: xs)) with (f x ;; forEach f xs).
    apply quiet_bind; [apply Hf; now left|].
    intros _. apply IH. intros y Hy. apply Hf. now right.
Qed.

Lemma quiet_logForce (a : Addr) : quiet (logForce a).
Proof.
  exists (Ok tt), [a], []. intros s. unfold logForce, extend.
  now rewrite !app_nil_r.
Qed.

Lemma quiet_emplace_back (p : StorePath) : quiet (drvPaths_emplace_back p).
Proof.
  exists (Ok tt), [], [mkStorePathWithOutputs p []]. intros s.
  unfold drvPaths_emplace_back, extend. now rewrite !app_nil_r.
Qed.

Lemma quiet_forceValue (v : Value) (pos : Pos) : quiet (forceValue v pos).
Proof.
  unfold forceValue. apply quiet_bind; [apply quiet_logForce|]. intros _.
  destruct v; first [apply quiet_throw | apply quiet_ret].
Qed.

Lemma quiet_forceAttrs (v : Value) (pos : Pos) : quiet (forceAttrs v pos).
Proof.
  unfold forceAttrs. apply quiet_bind; [apply quiet_forceValue|]. intros _.
  destruct v; first [apply quiet_throw | apply quiet_ret].
Qed.

Lemma quiet_checkSystemName (system : string) (pos : Pos) :
  quiet (checkSystemName system pos).
Proof.
  unfold checkSystemName. destruct (is_npos _); [apply quiet_throw|apply quiet_ret].
Qed.

Ltac quiet_step :=
  match goal with
  | |- quiet (ret _) => apply quiet_ret
  | |- quiet (throw _) => apply quiet_throw
  | |- quiet abort => apply quiet_abort
  | |- quiet (lift _) => apply quiet_lift
  | |- quiet (forceValue _ _) => apply quiet_forceValue
  | |- quiet (forceAttrs _ _) => apply quiet_forceAttrs
  | |- quiet (checkSystemName _ _) => apply quiet_checkSystemName
  | |- quiet (drvPaths_emplace_back _) => apply quiet_emplace_back
  | |- quiet (tryCatch _ _) => apply quiet_rethrow
  | |- quiet (bind _ _) => apply quiet_bind; [|intros ?]
  | |- quiet (forEach _ _) => apply quiet_forEach; intros ? _
  end.

Lemma quiet_checkDerivation (attrPath : string) (v : Value) (pos : Pos) :
  quiet (checkDerivation attrPath v pos).
Proof.
  unfold checkDerivation, getDerivation. repeat quiet_step.
  match goal with |- quiet (match ?o with _ => _ end) => destruct o end;
    quiet_step.
Qed.

Lemma quiet_checkApp (attrPath : string) (v : Value) (pos : Pos) :
  quiet (checkApp attrPath v pos).
Proof.
  unfold checkApp, App_. repeat quiet_step.
  - destruct v as [| | | |? [|?|?] ?]; quiet_step.
  - destruct (decodeContext _) as [drvPathS outputName].
    repeat quiet_step. destruct (_ && _); quiet_step.
Qed.

Lemma quiet_checkOverlay (attrPath : string) (v : Value) (pos : Pos) :
  quiet (checkOverlay attrPath v pos).
Proof.
  unfold checkOverlay. repeat quiet_step.
  destruct v; try quiet_step.
  destruct (_ || _); [quiet_step|].
  destruct (dynamic_cast_ExprLambda _); [|quiet_step].
  destruct (_ || _); quiet_step.
Qed.

Lemma quiet_checkModule (attrPath : string) (v : Value) (pos : Pos) :
  quiet (checkModule attrPath v pos).
Proof.
  unfold checkModule. repeat quiet_step.
  destruct v; try quiet_step.
  - destruct (formals _); [|quiet_step]. destruct (negb _); quiet_step.
  - repeat quiet_step.
Qed.

Lemma quiet_checkHydraJobs (v : Value) :
  forall (attrPath : string) (pos : Pos), quiet (checkHydraJobs attrPath v pos).
Proof.
  induction v as [a msg|a n|a x c|a f|a k attrs IH] using Value_nested_ind;
    intros attrPath pos; rewrite checkHydraJobs_unfold;
    repeat quiet_step;
    (destruct (isDerivation _); [quiet_step|]);
    apply quiet_forEach; simpl; try contradiction.
  intros attr Hattr. repeat quiet_step.
  destruct (negb _); [now apply IH|quiet_step].
Qed.

Lemma quiet_findAlongAttrPath_tokens (attrPath : string) (tokens : list string) :
  forall v, quiet (findAlongAttrPath_tokens attrPath tokens v).
Proof.
  induction tokens as [|t tokens IH]; intros v; simpl.
  - quiet_step.
  - repeat quiet_step. destruct v; try quiet_step.
    destruct (Bindings_get t attrs); [apply IH|quiet_step].
Qed.

Lemma quiet_checkNixOSConfiguration (attrPath : string) (v : Value) (pos : Pos) :
  quiet (checkNixOSConfiguration attrPath v pos).
Proof.
  unfold checkNixOSConfiguration, findAlongAttrPath. quiet_step. quiet_step.
  - apply quiet_findAlongAttrPath_tokens.
  - repeat quiet_step. destruct (negb _); quiet_step.
Qed.

Ltac quiet_steps :=
  repeat match goal with
         | |- quiet (checkDerivation _ _ _) => apply quiet_checkDerivation
         | |- quiet (checkApp _ _ _) => apply quiet_checkApp
         | |- quiet (checkOverlay _ _ _) => apply quiet_checkOverlay
         | |- quiet (checkModule _ _ _) => apply quiet_checkModule
         | |- quiet (checkHydraJobs _ _ _) => apply quiet_checkHydraJobs
         | |- quiet (checkNixOSConfiguration _ _ _) =>
             apply quiet_checkNixOSConfiguration
         | |- quiet (if _ then _ else _) =>
             match goal with
             | |- quiet (if ?b then _ else _) => destruct b
             end
         | _ => quiet_step
         end.

Lemma recognizedb_false (name : string) :
  recognizedb name = false -> ~ In name recognized.
Proof.
  unfold recognizedb. intros H Hin.
  assert (existsb (String.eqb name) recognized = true); [|congruence].
  apply existsb_exists. exists name. split; [exact Hin|apply String.eqb_refl].
Qed.

Lemma checkOutput_quiet (name : string) (v : Value) (pos : Pos) :
  recognizedb name = true -> quiet (checkOutput name v pos).
Proof.
  intros Hr. unfold checkOutput. apply quiet_rethrow.
  apply quiet_bind; [apply quiet_forceValue|]. intros _.
  repeat match goal with
         | |- quiet (if ?b then _ else _) =>
             let E := fresh "E" in destruct b eqn:E; [solve [quiet_steps]|]
         end.
  exfalso.
  repeat match goal with
         | E : (_ || _) = false |- _ =>
             apply orb_false_elim in E; destruct E
         end.
  unfold recognizedb, recognized in Hr. simpl in Hr.
  repeat match goal with
         | E : (name =? _) = false |- _ => rewrite E in Hr; clear E
         end.
  discriminate Hr.
Qed.

Lemma checkOutput_unknown (name : string) (v : Value) (pos : Pos) (s : State) :
  recognizedb name = false ->
  checkOutput name v pos s =
    match v with
    | vThunkThrows a msg =>
        (Throw (mkError (outputFrame name) msg), afterForce [a] s)
    | _ => (Ok tt, afterWarn (unknownOutput name) (afterForce [addrOf v] s))
    end.
Proof.
  intros Hr. apply recognizedb_false in Hr.
  destruct v; try apply checkOutput_failing_value;
    unfold checkOutput;
    rewrite !(not_recognized name) by (assumption || (simpl; tauto));
    reflexivity.
Qed.

Lemma checkOutput_emits (name : string) (v : Value) (pos : Pos) :
  exists r fl dl,
    writes (checkOutput name v pos) r fl dl
      (if recognizedb name || negb (evaluates v) then []
       else [unknownOutput name]).
Proof.
  destruct (recognizedb name) eqn:Hr.
  - exact (checkOutput_quiet name v pos Hr).
  - destruct v as [a msg|a z|a x c|a f|a k bs]; simpl.
    + exists (Throw (mkError (outputFrame name) msg)), [a], []. intros s.
      rewrite (checkOutput_unknown _ _ _ _ Hr). unfold afterForce, extend.
      now rewrite !app_nil_r.
    + exists (Ok tt), [a], []. intros s.
      rewrite (checkOutput_unknown _ _ _ _ Hr). unfold afterForce, afterWarn, extend.
      simpl. now rewrite !app_nil_r.
    + exists (Ok tt), [a], []. intros s.
      rewrite (checkOutput_unknown _ _ _ _ Hr). unfold afterForce, afterWarn, extend.
      simpl. now rewrite !app_nil_r.
    + exists (Ok tt), [a], []. intros s.
      rewrite (checkOutput_unknown _ _ _ _ Hr). unfold afterForce, afterWarn, extend.
      simpl. now rewrite !app_nil_r.
    + exists (Ok tt), [a], []. intros s.
      rewrite (checkOutput_unknown _ _ _ _ Hr). unfold afterForce, afterWarn, extend.
      simpl. now rewrite !app_nil_r.
Qed.

Lemma uniform_of_quiet {A} (m : M A) : quiet m -> uniform m.
Proof. intros (r & fl & dl & H). now exists r, fl, dl, []. Qed.

Lemma uniform_bind {A B} (m : M A) (f : A -> M B) :
  uniform m -> (forall a, uniform (f a)) -> uniform (bind m f).
Proof.
  intros (r & fl & dl & wl & Hm) Hf. destruct r as [a|e|].
  - destruct (Hf a) as (r2 & fl2 & dl2 & wl2 & H2).
    exists r2, (fl ++ fl2)%list, (dl ++ dl2)%list, (wl ++ wl2)%list. intros s.
    unfold bind. now rewrite Hm, H2, extend_extend.
  - exists (Throw e), fl, dl, wl. intros s. unfold bind. now rewrite Hm.
  - exists Abort, fl, dl, wl. intros s. unfold bind. now rewrite Hm.
Qed.

Lemma uniform_forEach {A} (f : A -> M unit) (xs : list A) :
  (forall x, uniform (f x)) -> uniform (forEach f xs).
Proof.
  intros Hf. induction xs as [|x xs IH].
  - apply uniform_of_quiet, quiet_ret.
  - change (forEach f (x :: xs)) with (f x ;; forEach f xs).
    apply uniform_bind; [apply Hf|]. intros _. exact IH.
Qed.

Lemma uniform_dispatch (attr : Attr Value) : uniform (dispatch attr).
Proof.
  unfold dispatch.
  destruct (checkOutput_emits (attr_name attr) (attr_value attr) (attr_pos attr))
    as (r & fl & dl & H).
  eexists r, fl, dl, _. exact H.
Qed.

Lemma uniform_evaluateFlake (vFlake : Value) : uniform (evaluateFlake vFlake).
Proof.
  unfold evaluateFlake, enumerateOutputs.
  apply uniform_bind; [apply uniform_of_quiet, quiet_forceAttrs|]. intros _.
  destruct (Bindings_get "outputs" (attrsOf vFlake)) as [aOutputs|].
  - apply uniform_bind; [apply uniform_of_quiet, quiet_forceAttrs|]. intros _.
    apply (uniform_forEach dispatch). apply uniform_dispatch.
  - apply uniform_of_quiet, quiet_abort.
Qed.

(** X8. The evaluation pass reads nothing of the state it is given: from
    every state it has the same outcome and appends the same cells, paths
    and warnings.  Hence the outcome of a run, and what it collects, do not
    depend on the state it starts from, and a second run on the same flake
    ends as the first did. *)
Theorem evaluation_reads_no_state (build : bool) (vFlake : Value) :
  (exists r fl dl wl, forall s, evaluateFlake vFlake s = (r, extend s fl dl wl)) /\
  (forall s s',
      fst (run build vFlake s) = fst (run build vFlake s') /\
      drvPaths (snd (run build vFlake s)) = drvPaths (snd (run build vFlake s'))) /\
  (forall s,
      fst (run build vFlake (snd (run build vFlake s))) = fst (run build vFlake s)).
Proof.
  destruct (uniform_evaluateFlake vFlake) as (r & fl & dl & wl & H).
  assert (Hrun : forall s s',
             fst (run build vFlake s) = fst (run build vFlake s') /\
             drvPaths (snd (run build vFlake s)) =
             drvPaths (snd (run build vFlake s'))).
  { intros s s'. unfold run, drvPaths_declare, drvPaths_read, store_buildPaths.
    unfold bind. rewrite !H.
    destruct r as [[]|e|]; simpl; try (split; reflexivity).
    destruct (build && negb match dl with [] => true | _ :: _ => false end);
      split; reflexivity. }
  split; [now exists r, fl, dl, wl|]. split; [exact Hrun|].
  intros s. apply Hrun.
Qed.

(** ** Warnings *)

Lemma dispatch_loop_warnings (outs : Bindings) :
  forall s s1,
    forEach dispatch outs s = (Ok tt, s1) ->
    warnings s1 = (warnings s ++ unknownWarnings outs)%list.
Proof.
  induction outs as [|o outs IH]; intros s s1 H.
  - injection H as <-. unfold unknownWarnings. simpl. now rewrite app_nil_r.
  - rewrite forEach_cons in H. unfold dispatch at 1 in H.
    destruct (checkOutput_emits (attr_name o) (attr_value o) (attr_pos o))
      as (r & fl & dl & Hw).
    pose proof (Hw s) as Hs. rewrite Hs in H.
    destruct r as [[]|e|]; try discriminate H.
    apply IH in H. rewrite H. unfold unknownWarnings. simpl.
    destruct (attr_value o) as [a msg| | | |] eqn:Ev;
      try (destruct (recognizedb (attr_name o)); simpl;
           rewrite <- ?app_assoc; reflexivity).
    rewrite checkOutput_failing_value in Hs. discriminate Hs.
Qed.

(** X9. When the evaluation pass returns, the warnings it printed are
    exactly the [unknown flake output] warnings of the outputs whose name
    is not recognized, one for each, in the order of the outputs; the
    recognized categories never warn. *)
Theorem warnings_are_unknown_outputs (a0 a1 : Addr) (k0 k1 : AttrsKind)
    (bs outs : Bindings) (aOutputs : Attr Value) (s s1 : State) :
  Bindings_get "outputs" bs = Some aOutputs ->
  attr_value aOutputs = vAttrs a1 k1 outs ->
  evaluateFlake (vAttrs a0 k0 bs) s = (Ok tt, s1) ->
  warnings s1 = (warnings s ++ unknownWarnings outs)%list.
Proof.
  intros Hget Hval H.
  rewrite (evaluateFlake_unfold _ _ _ _ _ _ _ _ Hget Hval) in H.
  now apply dispatch_loop_warnings in H.
Qed.

(** ** Failures of the pass *)

Lemma checkOutput_error_framed (name : string) (v : Value) (pos : Pos)
    (s s1 : State) (e : Error) :
  checkOutput name v pos s = (Throw e, s1) ->
  exists rest, prefix_ e = outputFrame name ++ rest.
Proof.
  destruct (checkOutput_shape name v pos) as (K & -> & _).
  unfold tryCatch, throw.
  destruct ((forceValue v pos ;; K) s) as [[[]|e'|] s']; intros H;
    try discriminate H.
  injection H as <- _. now exists (prefix_ e').
Qed.

Lemma dispatch_loop_error (outs : Bindings) :
  forall s s1 e,
    forEach dispatch outs s = (Throw e, s1) ->
    exists o rest, In o outs /\ prefix_ e = outputFrame (attr_name o) ++ rest.
Proof.
  induction outs as [|o outs IH]; intros s s1 e H; [discriminate H|].
  rewrite forEach_cons in H.
  destruct (dispatch o s) as [[[]|e'|] s'] eqn:Ed; try discriminate H.
  - destruct (IH _ _ _ H) as (o' & rest & Hin & Hp).
    exists o', rest. split; [now right|exact Hp].
  - injection H as <- <-. unfold dispatch in Ed.
    destruct (checkOutput_error_framed _ _ _ _ _ _ Ed) as (rest & Hp).
    exists o, rest. split; [now left|exact Hp].
Qed.

(** X10. Every error with which the loop over the outputs ends carries,
    outermost, the frame of one of the outputs of the flake: a failure of
    the check always names the flake output in which it occurred. *)
Theorem pass_error_names_output (a0 a1 : Addr) (k0 k1 : AttrsKind)
    (bs outs : Bindings) (aOutputs : Attr Value) (s s1 : State) (e : Error) :
  Bindings_get "outputs" bs = Some aOutputs ->
  attr_value aOutputs = vAttrs a1 k1 outs ->
  evaluateFlake (vAttrs a0 k0 bs) s = (Throw e, s1) ->
  exists o rest, In o outs /\ prefix_ e = outputFrame (attr_name o) ++ rest.
Proof.
  intros Hget Hval H.
  rewrite (evaluateFlake_unfold _ _ _ _ _ _ _ _ Hget Hval) in H.
  now apply dispatch_loop_error in H.
Qed.

(** X11. The first output whose check throws ends the run with that
    error: the state is the one that output left, so the outputs after it
    are never forced, whatever they are, and nothing is handed to the build
    backend, whatever was collected before. *)
Theorem first_failing_output_ends_run (build : bool) (a0 a1 : Addr)
    (k0 k1 : AttrsKind) (bs pre post : Bindings) (x aOutputs : Attr Value)
    (s s1 s2 : State) (e : Error) :
  Bindings_get "outputs" bs = Some aOutputs ->
  attr_value aOutputs = vAttrs a1 k1 (pre ++ x :: post) ->
  forEach dispatch pre (afterForce [a0; a1] (declared s)) = (Ok tt, s1) ->
  dispatch x s1 = (Throw e, s2) ->
  run build (vAttrs a0 k0 bs) s = (Throw e, s2) /\ builds s2 = builds s.
Proof.
  intros Hget Hval Hpre Hx.
  assert (Hpass : evaluateFlake (vAttrs a0 k0 bs) (declared s) = (Throw e, s2)).
  { rewrite (evaluateFlake_unfold _ _ _ _ _ _ _ _ Hget Hval).
    rewrite (forEach_app_ok _ _ _ _ _ Hpre). now apply forEach_throws. }
  split.
  - unfold run, drvPaths_declare. unfold bind. fold (declared s). now rewrite Hpass.
  - pose proof (evaluateFlake_builds (vAttrs a0 k0 bs) (declared s)) as Hb.
    rewrite Hpass in Hb. exact Hb.
Qed.

(** ** What is built *)

Lemma outputTargets_not_collecting (name : string) (v : Value) :
  collects name = false -> outputTargets name v = [].
Proof.
  unfold collects, collecting, outputTargets. simpl. intros H.
  destruct (name =? "checks"); [discriminate H|].
  destruct (name =? "apps"); [discriminate H|].
  destruct (name =? "defaultApp"); [discriminate H|reflexivity].
Qed.

Lemma expectedTargets_not_collecting (outs : Bindings) :
  forallb (fun o => negb (collects (attr_name o))) outs = true ->
  expectedTargets outs = [].
Proof.
  unfold expectedTargets. induction outs as [|o outs IH]; intros H; simpl in *.
  - reflexivity.
  - apply andb_true_iff in H. destruct H as [Ho H].
    rewrite outputTargets_not_collecting, IH; auto.
    now destruct (collects (attr_name o)).
Qed.

(** X12. Only [checks], [apps] and [defaultApp] give a run anything to
    build: on a flake that has none of these three outputs, whatever its
    packages, development shells, job sets or NixOS configurations, the run
    collects nothing and never calls the build backend, with or without
    [--no-build]. *)
Theorem builds_only_checks_and_apps (build : bool) (vFlake : Value) (s : State) :
  forallb (fun o => negb (collects (attr_name o))) (outputsOf vFlake) = true ->
  drvPaths (snd (run build vFlake s)) = [] /\
  builds (snd (run build vFlake s)) = builds s.
Proof.
  intros H. apply expectedTargets_not_collecting in H.
  destruct (adds_evaluateFlake vFlake (declared s))
    as (Hb & (l & Hl & Hin) & _ & _).
  rewrite H in Hin.
  assert (l = []) as -> by (destruct l as [|x l]; [reflexivity|destruct (Hin x); now left]).
  simpl in Hl, Hb.
  unfold run, drvPaths_declare, drvPaths_read. unfold bind. fold (declared s).
  destruct (evaluateFlake vFlake (declared s)) as [[[]|e|] s1]; simpl in *;
    try (split; assumption).
  rewrite Hl. rewrite andb_false_r. simpl. split; assumption.
Qed.

End Further.

(** * The further properties on the example values *)

Lemma default_entry_must_be_derivation_witness :
  @checkOutput demo "devShell"
    (vAttrs 2 kPlain
       ([mkAttr "x86_64-linux" drvA "flake.nix:3:5"] ++
        mkAttr "aarch64-linux" notAFunction "flake.nix:4:5" :: []))
    "flake.nix:2:3" s0 =
  (Throw (mkError
            (@outputFrame demo "devShell" ++
             @derivationFrame demo ("devShell" ++ "." ++ "aarch64-linux") "flake.nix:4:5")
            (derivationComplaint ("devShell" ++ "." ++ "aarch64-linux") notAFunction)),
   afterForce [addrOf notAFunction]
     (snd (@checkOutput demo "devShell"
             (vAttrs 2 kPlain [mkAttr "x86_64-linux" drvA "flake.nix:3:5"])
             "flake.nix:2:3" s0))).
Proof.
  apply (@default_entry_must_be_derivation demo "devShell" 2 kPlain
           [mkAttr "x86_64-linux" drvA "flake.nix:3:5"] []
           "aarch64-linux" notAFunction "flake.nix:4:5" "flake.nix:2:3" s0).
  - simpl. tauto.
  - reflexivity.
  - reflexivity.
  - vm_compute. reflexivity.
Defined.

Lemma check_entry_must_be_derivation_witness :
  @checkOutput demo "checks"
    (vAttrs 2 kPlain
       ([] ++
        mkAttr "aarch64-linux"
          (vAttrs 3 kPlain
             ([mkAttr "unit" drvA "flake.nix:4:7"] ++
              mkAttr "lint" overlayFinalPrev "flake.nix:5:7" :: []))
          "flake.nix:3:5" :: []))
    "flake.nix:2:3" s0 =
  (Throw (mkError
            (@outputFrame demo "checks" ++
             @derivationFrame demo ("checks" ++ "." ++ "aarch64-linux" ++ "." ++ "lint")
               "flake.nix:5:7")
            (derivationComplaint ("checks" ++ "." ++ "aarch64-linux" ++ "." ++ "lint")
               overlayFinalPrev)),
   afterForce [addrOf overlayFinalPrev]
     (snd (@checkOutput demo "checks"
             (vAttrs 2 kPlain
                ([] ++ [mkAttr "aarch64-linux"
                          (vAttrs 3 kPlain [mkAttr "unit" drvA "flake.nix:4:7"])
                          "flake.nix:3:5"]))
             "flake.nix:2:3" s0))).
Proof.
  apply (@check_entry_must_be_derivation demo "checks" 2 3 kPlain kPlain
           [] [] [mkAttr "unit" drvA "flake.nix:4:7"] []
           "aarch64-linux" "lint" overlayFinalPrev
           "flake.nix:3:5" "flake.nix:5:7" "flake.nix:2:3" s0).
  - simpl. tauto.
  - reflexivity.
  - vm_compute. reflexivity.
Defined.

Lemma overlays_entry_rejected_witness :
  @checkOutput demo "overlays"
    (vAttrs 2 kPlain
       ([mkAttr "good" overlayFinalPrev "flake.nix:3:5"] ++
        mkAttr "worse" overlayFinalOnly "flake.nix:4:5" :: []))
    "flake.nix:2:3" s0 =
  (Throw (mkError
            (@outputFrame demo "overlays" ++
             @overlayFrame demo ("overlays" ++ "." ++ "worse") "flake.nix:4:5")
            (overlayComplaint overlayFinalOnly)),
   afterForce [addrOf overlayFinalOnly]
     (snd (@checkOutput demo "overlays"
             (vAttrs 2 kPlain [mkAttr "good" overlayFinalPrev "flake.nix:3:5"])
             "flake.nix:2:3" s0))).
Proof.
  apply (@overlays_entry_rejected demo 2 kPlain
           [mkAttr "good" overlayFinalPrev "flake.nix:3:5"] []
           "worse" overlayFinalOnly "flake.nix:4:5" "flake.nix:2:3" s0).
  - reflexivity.
  - reflexivity.
  - vm_compute. reflexivity.
Defined.

Lemma hydra_entry_failure_framed_witness :
  @checkHydraJobs demo "hydraJobs"
    (vAttrs 2 kPlain
       ([mkAttr "build" drvA "flake.nix:3:5"] ++
        mkAttr "docs" notAFunction "flake.nix:4:5" ::
        [mkAttr "tests" (vThunkThrows 61 "never forced") "flake.nix:5:5"]))
    "flake.nix:2:3" s0 =
  (Throw (mkError
            (@hydraFrame demo "hydraJobs" "flake.nix:2:3" ++
             prefix_ (Error_ "value is an integer while a set was expected, at flake.nix:4:5"))
            (err (Error_ "value is an integer while a set was expected, at flake.nix:4:5"))),
   afterForce [2; 10; 50] s0).
Proof.
  apply (@hydra_entry_failure_framed demo "hydraJobs" 2 kPlain
           [mkAttr "build" drvA "flake.nix:3:5"]
           [mkAttr "tests" (vThunkThrows 61 "never forced") "flake.nix:5:5"]
           "docs" notAFunction "flake.nix:4:5" "flake.nix:2:3" s0
           (afterForce [2; 10] s0) (afterForce [2; 10; 50] s0)
           (Error_ "value is an integer while a set was expected, at flake.nix:4:5")).
  - reflexivity.
  - vm_compute. reflexivity.
  - vm_compute. reflexivity.
Defined.

Lemma checkHydraJobs_forces_witness :
  exists s' fl,
    @checkHydraJobs demo "hydraJobs" (deepJobset 2 (mkDrvInfo "/nix/store/bbb-lint.drv"))
      "flake.nix:2:3" s0 = (Ok tt, s') /\
    forced s' = (forced s0 ++ fl)%list /\
    length fl =
      1 + countLeaves (deepJobset 2 (mkDrvInfo "/nix/store/bbb-lint.drv"))
      + 2 * countNested (deepJobset 2 (mkDrvInfo "/nix/store/bbb-lint.drv")).
Proof.
  apply (@checkHydraJobs_forces demo "hydraJobs"
           (deepJobset 2 (mkDrvInfo "/nix/store/bbb-lint.drv")) "flake.nix:2:3" s0).
  reflexivity.
Defined.

Lemma warnings_are_unknown_outputs_witness :
  warnings (snd (@evaluateFlake demo (flakeOf withUnknown) s0)) =
  (warnings s0 ++ unknownWarnings withUnknown)%list.
Proof.
  apply (@warnings_are_unknown_outputs demo 0 1 kPlain kPlain
           [mkAttr "outputs" (vAttrs 1 kPlain withUnknown) "flake.nix:1:1"]
           withUnknown
           (mkAttr "outputs" (vAttrs 1 kPlain withUnknown) "flake.nix:1:1") s0
           (snd (@evaluateFlake demo (flakeOf withUnknown) s0))).
  - reflexivity.
  - reflexivity.
  - vm_compute. reflexivity.
Defined.

Lemma pass_error_names_output_witness :
  exists o rest,
    In o (packagesOnly ++ badOverlay :: [neverReached])%list /\
    prefix_ (mkError
               (@outputFrame demo "overlay" ++
                @overlayFrame demo "overlay" "flake.nix:5:3")
               "overlay does not take an argument named 'final'") =
    @outputFrame demo (attr_name o) ++ rest.
Proof.
  apply (@pass_error_names_output demo 0 1 kPlain kPlain
           [mkAttr "outputs"
              (vAttrs 1 kPlain (packagesOnly ++ badOverlay :: [neverReached])%list)
              "flake.nix:1:1"]
           (packagesOnly ++ badOverlay :: [neverReached])%list
           (mkAttr "outputs"
              (vAttrs 1 kPlain (packagesOnly ++ badOverlay :: [neverReached])%list)
              "flake.nix:1:1")
           s0
           (snd (@evaluateFlake demo
                   (flakeOf (packagesOnly ++ badOverlay :: [neverReached])%list) s0))).
  - reflexivity.
  - reflexivity.
  - vm_compute. reflexivity.
Defined.

Lemma first_failing_output_ends_run_witness :
  @run demo true (flakeOf (packagesOnly ++ badOverlay :: [neverReached])%list) s0 =
    (Throw (mkError
              (@outputFrame demo "overlay" ++
               @overlayFrame demo "overlay" "flake.nix:5:3")
              "overlay does not take an argument named 'final'"),
     snd (@dispatch demo badOverlay
            (snd (forEach (@dispatch demo) packagesOnly
                    (afterForce [0; 1] (declared s0)))))) /\
  builds
    (snd (@dispatch demo badOverlay
            (snd (forEach (@dispatch demo) packagesOnly
                    (afterForce [0; 1] (declared s0)))))) =
  builds s0.
Proof.
  apply (@first_failing_output_ends_run demo true 0 1 kPlain kPlain
           [mkAttr "outputs"
              (vAttrs 1 kPlain (packagesOnly ++ badOverlay :: [neverReached])%list)
              "flake.nix:1:1"]
           packagesOnly [neverReached] badOverlay
           (mkAttr "outputs"
              (vAttrs 1 kPlain (packagesOnly ++ badOverlay :: [neverReached])%list)
              "flake.nix:1:1")
           s0
           (snd (forEach (@dispatch demo) packagesOnly
                   (afterForce [0; 1] (declared s0))))).
  - reflexivity.
  - reflexivity.
  - vm_compute. reflexivity.
  - vm_compute. reflexivity.
Defined.

Lemma builds_only_checks_and_apps_witness :
  drvPaths (snd (@run demo true (flakeOf nothingToBuild) s0)) = [] /\
  builds (snd (@run demo true (flakeOf nothingToBuild) s0)) = builds s0.
Proof.
  apply (@builds_only_checks_and_apps demo true (flakeOf nothingToBuild) s0).
  reflexivity.
Defined.
